(** * ATM Booth Finder: the freshness-gated cache of [app.py]

    A shallow embedding of the back end of [src/app.py]: the [ATM] table,
    [generate_mock_atms], and the two JSON routes [get_atms]
    ([GET /api/atms]) and [get_atm] ([GET /api/atms/<id>]).

    Modelling conventions.
    - Python [int] is [Z]; Python [float] is idealised as a real number
      ([R]): rounding, overflow and the non-finite values are not modelled.
      A float division raises [ZeroDivisionError] exactly when its divisor
      is zero.
    - The [random] module draws from a tape [entropy]; each library call
      consumes one cell ([random.sample] one cell per selected item).  The
      tape is universally quantified in the theorems, so every outcome the
      library can produce is covered.
    - [datetime.utcnow()] reads the next cell of the tape [wallclock]
      (microseconds since the epoch).
    - Every statement sent to the database may raise; the tape [faults]
      says which.  A commit is all-or-nothing.  The session of a request
      works on its own view [sess] of the table, [commit] publishes the
      view, and the end of the request discards whatever is uncommitted.
    - The built-ins [float] and [int] applied to a query-string value are
      parameters of the development ([None] when they raise
      [ValueError]). *)

From Stdlib Require Import List String Ascii ZArith Reals Lia Lra Bool Arith.
From Stdlib Require Import DecimalString.
Import ListNotations.

Local Open Scope string_scope.
Local Open Scope Z_scope.

(** ** Data model *)

(** The dictionaries built by [generate_mock_atms]. *)
Module Mock.
Record t : Type := mk
  { name : string; lat : R; lng : R; address : string;
    services : list string }.
End Mock.

(** Rows of the table [atm] (class [ATM]).  [id] is [None] on an object
    that was not flushed yet, [fetched_at] is a nullable column. *)
Module ATM.
Record t : Type := mk
  { id : option Z; name : string; lat : R; lng : R; address : string;
    services : list string; fetched_at : option Z }.

Definition with_id (i : Z) (a : t) : t :=
  mk (Some i) (name a) (lat a) (lng a) (address a) (services a)
     (fetched_at a).

(** The part of a row that comes from the generated dictionary. *)
Definition payload (a : t) : Mock.t :=
  Mock.mk (name a) (lat a) (lng a) (address a) (services a).
End ATM.

(** The dictionary returned by [ATM.to_dict]; the ISO rendering of the
    timestamp is kept abstract (the timestamp itself stands for it). *)
Module Dict.
Record t : Type := mk
  { id : option Z; name : string; lat : R; lng : R; address : string;
    services : list string; fetched_at : option Z }.
End Dict.

Definition to_dict (a : ATM.t) : Dict.t :=
  Dict.mk (ATM.id a) (ATM.name a) (ATM.lat a) (ATM.lng a) (ATM.address a)
          (ATM.services a)
          (match ATM.fetched_at a with Some t => Some t | None => None end).

Definition DEFAULT_RADIUS : Z := 1000.

(** ** Exceptions, the world, and the monad of request handlers *)

Inductive exn : Type :=
| ValueError (what : string)
| IndexError
| ZeroDivisionError
| OperationalError.

Inductive result (A : Type) : Type :=
| Ok (a : A)
| Raise (e : exn).
Arguments Ok {A} a.
Arguments Raise {A} e.

Record World : Type := mkWorld
  { table : list ATM.t;          (* committed rows, in insertion order *)
    sess : list ATM.t;           (* the rows as the open transaction sees them *)
    pend : list ATM.t;           (* objects added to the session, not flushed *)
    entropy : nat -> Z; rpos : nat;
    wallclock : nat -> Z; cpos : nat;
    faults : nat -> bool; dpos : nat }.

Definition M (A : Type) : Type := World -> result A * World.

Definition ret {A} (a : A) : M A := fun w => (Ok a, w).
Definition raise {A} (e : exn) : M A := fun w => (Raise e, w).
Definition bind {A B} (c : M A) (k : A -> M B) : M B :=
  fun w => match c w with
           | (Ok a, w') => k a w'
           | (Raise e, w') => (Raise e, w')
           end.

Definition lift {A} (r : result A) : M A := fun w => (r, w).

Notation "x <- c ;; k" := (bind c (fun x => k))
  (at level 61, c at next level, right associativity).
Notation "c ;;; k" := (bind c (fun _ => k))
  (at level 61, right associativity).

Definition set_table (t : list ATM.t) (w : World) : World :=
  mkWorld t (sess w) (pend w) (entropy w) (rpos w) (wallclock w) (cpos w)
          (faults w) (dpos w).
Definition set_sess (s : list ATM.t) (w : World) : World :=
  mkWorld (table w) s (pend w) (entropy w) (rpos w) (wallclock w) (cpos w)
          (faults w) (dpos w).
Definition set_pend (p : list ATM.t) (w : World) : World :=
  mkWorld (table w) (sess w) p (entropy w) (rpos w) (wallclock w) (cpos w)
          (faults w) (dpos w).
Definition set_rpos (n : nat) (w : World) : World :=
  mkWorld (table w) (sess w) (pend w) (entropy w) n (wallclock w) (cpos w)
          (faults w) (dpos w).
Definition set_cpos (n : nat) (w : World) : World :=
  mkWorld (table w) (sess w) (pend w) (entropy w) (rpos w) (wallclock w) n
          (faults w) (dpos w).
Definition set_dpos (n : nat) (w : World) : World :=
  mkWorld (table w) (sess w) (pend w) (entropy w) (rpos w) (wallclock w)
          (cpos w) (faults w) n.

(** ** The [random] module *)

Module Random.

(** One cell of the tape, as it is. *)
Definition draw : M Z :=
  fun w => (Ok (entropy w (rpos w)), set_rpos (S (rpos w)) w).

(** [_randbelow(n)]: an integer in [0, n). *)
Definition randbelow (n : Z) : M Z :=
  x <- draw ;; ret (x mod n).

(** [random.random()]: a 53-bit integer divided by [2^53]. *)
Definition unit_float (x : Z) : R :=
  (IZR (x mod 2 ^ 53) / IZR (2 ^ 53))%R.
Definition random : M R :=
  x <- draw ;; ret (unit_float x).

(** [random.randint(a, b)] is [randrange(a, b + 1)]. *)
Definition randint (a b : Z) : M Z :=
  let width := b + 1 - a in
  if 0 <? width then (x <- randbelow width ;; ret (a + x))
  else raise (ValueError "empty range for randrange()").

(** [random.choice(seq)] is [seq[_randbelow(len(seq))]]. *)
Definition choice {A} (seq : list A) : M A :=
  match seq with
  | [] => raise IndexError
  | _ :: _ =>
      i <- randbelow (Z.of_nat (List.length seq)) ;;
      match nth_error seq (Z.to_nat i) with
      | Some x => ret x
      | None => raise IndexError
      end
  end.

(** [pool[j] = x]. *)
Fixpoint set_nth {A} (j : nat) (x : A) (pool : list A) : list A :=
  match pool, j with
  | [], _ => []
  | _ :: tl, O => x :: tl
  | y :: tl, S j' => y :: set_nth j' x tl
  end.

(** The loop of [random.sample] over a pool (the branch taken when the
    population has at most 21 items): [m] is [n - i]. *)
Fixpoint sample_loop {A} (k : nat) (pool : list A) (m : nat)
  : M (list A) :=
  match k with
  | O => ret []
  | S k' =>
      j <- randbelow (Z.of_nat m) ;;
      match nth_error pool (Z.to_nat j), nth_error pool (m - 1) with
      | Some x, Some last =>
          rest <- sample_loop k' (set_nth (Z.to_nat j) last pool) (m - 1) ;;
          ret (x :: rest)
      | _, _ => raise IndexError
      end
  end.

Definition sample {A} (population : list A) (k : Z) : M (list A) :=
  let n := Z.of_nat (List.length population) in
  if (0 <=? k) && (k <=? n)
  then sample_loop (Z.to_nat k) population (List.length population)
  else raise (ValueError "Sample larger than population or is negative").

End Random.

(** ** [generate_mock_atms] *)

Definition bank_names : list string :=
  [ "United Bank"; "Citizens Financial"; "First National";
    "Metro Credit Union"; "Community Bank"; "Urban Trust"; "Heritage Bank";
    "Liberty Financial"; "Capital One"; "Chase"; "Wells Fargo";
    "Bank of America" ].

Definition street_names : list string :=
  [ "Main St"; "Oak Ave"; "Maple Rd"; "Broadway"; "Park Ave";
    "Washington St"; "Market St"; "State St"; "Water St"; "Commerce Way" ].

Definition all_services : list string :=
  [ "Cash Withdrawal"; "Cash Deposit"; "Cardless Withdrawal";
    "Balance Inquiry"; "Check Deposit"; "Bill Payment" ].

(** [str(n)] for an integer. *)
Definition str_of_int (n : Z) : string := NilZero.string_of_int (Z.to_int n).

(** [math.radians]. *)
Definition radians (x : R) : R := (x * (PI / 180))%R.

(** Float division: raises on a zero divisor. *)
Definition fdiv (x y : R) : M R :=
  if Req_dec_T y 0 then raise ZeroDivisionError else ret (x / y)%R.

(** The body of the [for] loop, for one record. *)
Definition generate_one (lat lng radius_lat radius_lng : R) : M Mock.t :=
  u <- Random.random ;;
  let random_lat := (lat + (u * 2 - 1) * radius_lat)%R in
  v <- Random.random ;;
  let random_lng := (lng + (v * 2 - 1) * radius_lng)%R in
  bank <- Random.choice bank_names ;;
  street_number <- Random.randint 1 999 ;;
  street <- Random.choice street_names ;;
  let address := str_of_int street_number ++ " " ++ street in
  service_count <- Random.randint 2 4 ;;
  services <- Random.sample all_services service_count ;;
  ret (Mock.mk (bank ++ " ATM") random_lat random_lng address services).

(** [for i in range(count): ... atms.append(atm)]. *)
Fixpoint generate_loop (n : nat) (lat lng radius_lat radius_lng : R)
  : M (list Mock.t) :=
  match n with
  | O => ret []
  | S n' =>
      atm <- generate_one lat lng radius_lat radius_lng ;;
      atms <- generate_loop n' lat lng radius_lat radius_lng ;;
      ret (atm :: atms)
  end.

Definition generate_mock_atms (lat lng : R) (radius : Z) (count : Z)
  : M (list Mock.t) :=
  radius_lat <- fdiv (IZR radius) 111000 ;;
  radius_lng <- fdiv (IZR radius) (111000 * Rabs (cos (radians lat))) ;;
  generate_loop (Z.to_nat count) lat lng radius_lat radius_lng.

(** ** The clock and the database session *)

(** [datetime.utcnow()]. *)
Definition utcnow : M Z :=
  fun w => (Ok (wallclock w (cpos w)), set_cpos (S (cpos w)) w).

(** [timedelta(minutes=15)], in microseconds. *)
Definition fifteen_minutes : Z := 15 * 60 * 1000000.

Module Db.

(** One round trip to the database: it raises when the fault tape says
    so, and has no effect on the rows then. *)
Definition statement : M unit :=
  fun w => ((if faults w (dpos w) then Raise OperationalError else Ok tt),
            set_dpos (S (dpos w)) w).

(** [ATM.fetched_at >= threshold]; a NULL timestamp never matches. *)
Definition is_fresh (threshold : Z) (a : ATM.t) : bool :=
  match ATM.fetched_at a with
  | Some t => threshold <=? t
  | None => false
  end.

Definition has_id (k : Z) (a : ATM.t) : bool :=
  match ATM.id a with
  | Some i => i =? k
  | None => false
  end.

(** [ATM.query.filter(ATM.fetched_at >= threshold).all()]. *)
Definition query_fresh (threshold : Z) : M (list ATM.t) :=
  statement ;;; (fun w => (Ok (filter (is_fresh threshold) (sess w)), w)).

(** [ATM.query.all()]. *)
Definition query_all : M (list ATM.t) :=
  statement ;;; (fun w => (Ok (sess w), w)).

(** [ATM.query.get(k)]. *)
Definition query_get (k : Z) : M (option ATM.t) :=
  statement ;;; (fun w => (Ok (find (has_id k) (sess w)), w)).

(** [ATM.query.delete()]: every row goes, inside the transaction. *)
Definition query_delete : M unit :=
  statement ;;; (fun w => (Ok tt, set_sess [] w)).

(** [db.session.add(obj)]. *)
Definition add (a : ATM.t) : M unit :=
  fun w => (Ok tt, set_pend (pend w ++ [a])%list w).

(** The integer primary key of a new row: one more than the largest
    key in the table. *)
Definition max_id (rows : list ATM.t) : Z :=
  fold_right (fun a m => match ATM.id a with
                         | Some i => Z.max i m
                         | None => m
                         end) 0 rows.
Definition next_id (rows : list ATM.t) : Z := max_id rows + 1.

(** The INSERTs of a flush, in the order of [add]. *)
Fixpoint flush (rows pending : list ATM.t) : list ATM.t :=
  match pending with
  | [] => rows
  | a :: ps => flush (rows ++ [ATM.with_id (next_id rows) a])%list ps
  end.

(** [db.session.commit()]: flush, then publish the view. *)
Definition commit : M unit :=
  statement ;;;
  (fun w => let s := flush (sess w) (pend w) in
            (Ok tt, set_table s (set_sess s (set_pend [] w)))).

(** A request starts with a new session on the committed table, and
    its end discards the session. *)
Definition open_session (w : World) : World :=
  set_pend [] (set_sess (table w) w).
Definition close_session (w : World) : World :=
  set_pend [] (set_sess [] w).

End Db.

(** ** The routes *)

Inductive errmsg : Type :=
| Text (s : string)                (* a literal message *)
| StrOf (e : exn).                 (* [str(e)] *)

Inductive body : Type :=
| Atms (l : list Dict.t)           (* [{"atms": l}] *)
| Atm (d : Dict.t)
| Error (m : errmsg).              (* [{"error": m}] *)

Record response : Type := Resp { status : Z; content : body }.

(** [request.args.get(key)]: the first value of the key. *)
Fixpoint args_get (key : string) (args : list (string * string))
  : option string :=
  match args with
  | [] => None
  | (k, v) :: tl => if String.eqb k key then Some v else args_get key tl
  end.

Section Routes.

(** The built-ins [float] and [int] on a string. *)
Variable float_of_str : string -> option R.
Variable int_of_str : string -> option Z.

(** [float(request.args.get(key, default))]; [ValueError] carries the
    text that could not be converted. *)
Definition float_arg (v : option string) (default : Z) : result R :=
  match v with
  | None => Ok (IZR default)
  | Some s => match float_of_str s with
              | Some x => Ok x
              | None => Raise (ValueError s)
              end
  end.

Definition int_arg (v : option string) (default : Z) : result Z :=
  match v with
  | None => Ok default
  | Some s => match int_of_str s with
              | Some x => Ok x
              | None => Raise (ValueError s)
              end
  end.

(** [for atm in atm_data: db.session.add(ATM(..., fetched_at=utcnow()))]. *)
Fixpoint add_all (atm_data : list Mock.t) : M unit :=
  match atm_data with
  | [] => ret tt
  | atm :: tl =>
      t <- utcnow ;;
      Db.add (ATM.mk None (Mock.name atm) (Mock.lat atm) (Mock.lng atm)
                     (Mock.address atm) (Mock.services atm) (Some t)) ;;;
      add_all tl
  end.

(** The [if not fresh_atms:] branch. *)
Definition refresh (lat lng : R) (radius : Z) : M (list ATM.t) :=
  num_atms <- Random.randint 5 15 ;;
  atm_data <- generate_mock_atms lat lng radius num_atms ;;
  match atm_data with
  | [] => ret tt
  | _ :: _ =>
      Db.query_delete ;;;
      Db.commit ;;;
      add_all atm_data ;;;
      Db.commit
  end ;;;
  Db.query_all.

(** The [try] block of [get_atms], from the freshness check on. *)
Definition cached_or_refreshed (lat lng : R) (radius : Z)
  : M (list Dict.t) :=
  now <- utcnow ;;
  let fifteen_mins_ago := now - fifteen_minutes in
  fresh_atms <- Db.query_fresh fifteen_mins_ago ;;
  atms <- match fresh_atms with
          | [] => refresh lat lng radius
          | _ :: _ => ret fresh_atms
          end ;;
  ret (map to_dict atms).

(** The three conversions at the head of [get_atms] succeed. *)
Definition parsed (args : list (string * string))
           (lat lng : R) (radius : Z) : Prop :=
  float_arg (args_get "lat" args) 0 = Ok lat
  /\ float_arg (args_get "lng" args) 0 = Ok lng
  /\ int_arg (args_get "radius" args) DEFAULT_RADIUS = Ok radius.

(** The [try] block of [get_atms]. *)
Definition get_atms_try (args : list (string * string)) : M (list Dict.t) :=
  lat <- lift (float_arg (args_get "lat" args) 0) ;;
  lng <- lift (float_arg (args_get "lng" args) 0) ;;
  radius <- lift (int_arg (args_get "radius" args) DEFAULT_RADIUS) ;;
  cached_or_refreshed lat lng radius.

Definition get_atms (args : list (string * string)) (w : World)
  : response * World :=
  match get_atms_try args (Db.open_session w) with
  | (Ok atm_list, w') => (Resp 200 (Atms atm_list), Db.close_session w')
  | (Raise e, w') => (Resp 500 (Error (StrOf e)), Db.close_session w')
  end.

(** [get_atm]: the route only matches a non-negative integer. *)
Definition get_atm_try (atm_id : Z) : M response :=
  atm <- Db.query_get atm_id ;;
  match atm with
  | None => ret (Resp 404 (Error (Text "ATM not found")))
  | Some a => ret (Resp 200 (Atm (to_dict a)))
  end.

Definition get_atm (atm_id : Z) (w : World) : response * World :=
  match get_atm_try atm_id (Db.open_session w) with
  | (Ok r, w') => (r, Db.close_session w')
  | (Raise e, w') => (Resp 500 (Error (StrOf e)), Db.close_session w')
  end.

(** The worlds the server can be in between two requests, from the
    empty table that [db.create_all()] makes. *)
Inductive reachable : World -> Prop :=
| reach_init : forall e c f,
    reachable (mkWorld [] [] [] e 0 c 0 f 0)
| reach_get_atms : forall w args,
    reachable w -> reachable (snd (get_atms args w))
| reach_get_atm : forall w k,
    reachable w -> reachable (snd (get_atm k w)).

End Routes.

(** ** Vocabulary of the statements *)

(** The objects that the loop of [get_atms] adds to the session for the
    generated [atm_data], the first one stamped with cell [c] of the
    clock; and the rows that the flush makes of them in an empty table. *)
Fixpoint stamped (atm_data : list Mock.t) (clock : nat -> Z) (c : nat)
  : list ATM.t :=
  match atm_data with
  | [] => []
  | atm :: tl =>
      ATM.mk None (Mock.name atm) (Mock.lat atm) (Mock.lng atm)
             (Mock.address atm) (Mock.services atm) (Some (clock c))
      :: stamped tl clock (S c)
  end.

(** Primary keys [k], [k + 1], ... given to a list of objects. *)
Fixpoint keyed (k : Z) (pending : list ATM.t) : list ATM.t :=
  match pending with
  | [] => []
  | a :: tl => ATM.with_id k a :: keyed (k + 1) tl
  end.

Definition new_rows (atm_data : list Mock.t) (clock : nat -> Z) (c : nat)
  : list ATM.t :=
  Db.flush [] (stamped atm_data clock c).

(** The table holds the output of exactly one call of
    [generate_mock_atms]. *)
Definition one_generation (rows : list ATM.t) : Prop :=
  exists lat lng radius count w atm_data w' clock c,
    generate_mock_atms lat lng radius count w = (Ok atm_data, w')
    /\ rows = new_rows atm_data clock c.

(** The freshness threshold of a request that starts in [w], and the rows
    its first query finds. *)
Definition threshold (w : World) : Z := wallclock w (cpos w) - fifteen_minutes.
Definition fresh_rows (w : World) : list ATM.t :=
  filter (Db.is_fresh (threshold w)) (table w).

(** The number of records a refresh asks for, and the world in which it
    calls [generate_mock_atms], for a request that starts in [w]. *)
Definition num_atms (w : World) : Z := 5 + entropy w (rpos w) mod 11.
Definition gen_world (w : World) : World :=
  mkWorld (table w) (table w) [] (entropy w) (S (rpos w)) (wallclock w)
          (S (cpos w)) (faults w) (S (dpos w)).

(** The world a request leaves behind: table [rows], no session, and the
    positions of the three tapes. *)
Definition left_behind (w : World) (rows : list ATM.t) (r c d : nat)
  : World :=
  mkWorld rows [] [] (entropy w) r (wallclock w) c (faults w) d.

Definition failed (e : exn) : response := Resp 500 (Error (StrOf e)).

(** A computation that only advances the generator. *)
Definition rng_only (w w' : World) : Prop := w' = set_rpos (rpos w') w.

(** The two spans of [generate_mock_atms], in degrees. *)
Definition lat_span (radius : Z) : R := (IZR radius / 111000)%R.
Definition lng_span (lat : R) (radius : Z) : R :=
  (IZR radius / (111000 * Rabs (cos (radians lat))))%R.

(** The position of a record: the centre plus, on each axis, the span
    scaled by [2u - 1], where the two [u] are the values of two separate
    calls of [random.random()] (two cells of the tape). *)
Definition placed (tape : nat -> Z) (lat lng radius_lat radius_lng : R)
           (a : Mock.t) : Prop :=
  exists p : nat,
    Mock.lat a
    = (lat + (Random.unit_float (tape p) * 2 - 1) * radius_lat)%R
    /\ Mock.lng a
       = (lng + (Random.unit_float (tape (S p)) * 2 - 1) * radius_lng)%R.

Definition named (a : Mock.t) : Prop :=
  exists bank, In bank bank_names /\ Mock.name a = bank ++ " ATM".

Definition addressed (a : Mock.t) : Prop :=
  exists n street,
    1 <= n <= 999 /\ In street street_names
    /\ Mock.address a = str_of_int n ++ " " ++ street.

Definition serviced (a : Mock.t) : Prop :=
  2 <= Z.of_nat (List.length (Mock.services a)) <= 4
  /\ NoDup (Mock.services a)
  /\ incl (Mock.services a) all_services.

(** What [generate_mock_atms] puts in one record. *)
Definition generated_record (tape : nat -> Z)
           (lat lng radius_lat radius_lng : R) (a : Mock.t) : Prop :=
  placed tape lat lng radius_lat radius_lng a
  /\ named a /\ addressed a /\ serviced a.

Section Batches.

Variable float_of_str : string -> option R.
Variable int_of_str : string -> option Z.

(** [rows] is the complete batch that the refresh of the request
    [args], started in [w], generates. *)
Definition full_batch (args : list (string * string)) (w : World)
           (rows : list ATM.t) : Prop :=
  exists lat lng radius atm_data w',
    parsed float_of_str int_of_str args lat lng radius
    /\ generate_mock_atms lat lng radius (num_atms w) (gen_world w)
       = (Ok atm_data, w')
    /\ 5 <= Z.of_nat (List.length atm_data) <= 15
    /\ rows = new_rows atm_data (wallclock w) (S (cpos w)).

End Batches.

(** ** Concrete requests

    An instance of the two conversions, to run the routes on.  It reads
    the plain decimal literals (an optional sign, digits, and for
    [float] an optional fraction) as Python does, and like Python it
    refuses a text such as [abc], or [1e3] as an [int].  The other
    spellings that Python accepts (exponents in a [float], underscores,
    blanks around the number, [inf], [nan]) are outside this instance,
    and no run below feeds it one. *)

Module Decimal.

Definition digit (c : ascii) : option Z :=
  let n := Z.of_N (N_of_ascii c) in
  if (48 <=? n) && (n <=? 57) then Some (n - 48) else None.

Fixpoint digits (acc : Z) (s : string) : option Z :=
  match s with
  | EmptyString => Some acc
  | String c tl =>
      match digit c with
      | Some d => digits (10 * acc + d) tl
      | None => None
      end
  end.

Definition unsigned (s : string) : option Z :=
  match s with
  | EmptyString => None
  | String _ _ => digits 0 s
  end.

Definition signed {A} (neg : A -> A) (p : string -> option A)
           (s : string) : option A :=
  match s with
  | String "-" tl => option_map neg (p tl)
  | String "+" tl => p tl
  | _ => p s
  end.

Definition int : string -> option Z := signed Z.opp unsigned.

(** The text before the first dot, and the text after it if any. *)
Fixpoint split_dot (s : string) : string * option string :=
  match s with
  | EmptyString => (EmptyString, None)
  | String "." tl => (EmptyString, Some tl)
  | String c tl => let (a, b) := split_dot tl in (String c a, b)
  end.

Definition unsigned_float (s : string) : option R :=
  match split_dot s with
  | (whole, None) => option_map IZR (unsigned whole)
  | (whole, Some frac) =>
      match whole, frac with
      | EmptyString, EmptyString => None
      | _, _ =>
          match digits 0 whole, digits 0 frac with
          | Some a, Some b =>
              Some (IZR a + IZR b / IZR (10 ^ Z.of_nat (String.length frac)))%R
          | _, _ => None
          end
      end
  end.

Definition float : string -> option R := signed Ropp unsigned_float.

End Decimal.

(** The server after [db.create_all()], on given tapes. *)
Definition boot (e c : nat -> Z) (f : nat -> bool) : World :=
  mkWorld [] [] [] e 0 c 0 f 0.

Definition zeros : nat -> Z := fun _ => 0.
Definition healthy : nat -> bool := fun _ => false.
Definition faulty_at (k : nat) : nat -> bool := fun i => (i =? k)%nat.

(** A clock that reads [i] microseconds at cell [i] and jumps to [t]
    from cell [late] on. *)
Definition jumping_clock (late : nat) (t : Z) : nat -> Z :=
  fun i => if (i <? late)%nat then Z.of_nat i else t.

(** A table of two rows, read when the clock says 10 microseconds. *)
Definition sample_row (i t : Z) : ATM.t :=
  ATM.mk (Some i) "Chase ATM" 0 0 "1 Main St"
         ["Cash Deposit"; "Bill Payment"] (Some t).

Definition warm_world : World :=
  mkWorld [sample_row 1 5; sample_row 2 7] [] [] zeros 0 (fun _ => 10) 0
          healthy 0.


(** The keys [1], ..., [n]. *)
Definition keys (n : nat) : list (option Z) :=
  map (fun i => Some (1 + Z.of_nat i)) (seq 0 n).

(** Two worlds that differ at most in the number of statements sent to
    the database so far, the database being one that never raises. *)
Definition same_but_dpos (w v : World) : Prop :=
  (forall i, faults w i = false) /\ v = set_dpos (dpos v) w.

(** A computation that cannot tell such worlds apart. *)
Definition dpos_blind {A} (c : M A) : Prop :=
  forall w v, same_but_dpos w v ->
              fst (c w) = fst (c v) /\ same_but_dpos (snd (c w)) (snd (c v)).

(** ** [JSONField]

    The column type of [services]: [json.dumps] on the way in,
    [json.loads] on the way out, [None] passed through both ways.  The
    two library functions are parameters; the [dialect] argument is not
    used by the code. *)

Section JSONField.

Variable value : Type.
Variable dumps : value -> string.
Variable loads : string -> value.

Definition process_bind_param (v : option value) : option string :=
  match v with
  | Some x => Some (dumps x)
  | None => None
  end.

Definition process_result_value (v : option string) : option value :=
  match v with
  | Some s => Some (loads s)
  | None => None
  end.

End JSONField.

(** An instance of the two library functions, on the JSON booleans. *)
Definition dumps_bool (b : bool) : string := if b then "true" else "false".
Definition loads_bool (s : string) : bool := String.eqb s "true".

(** ** The page script

    The handlers of the script in [MAIN_TEMPLATE], on a record of what
    they read and write: the globals [userPosition], [markerLayer] (the
    markers in the layer group, [None] while it is [null]) and
    [atmMarkers], and the elements of the document they touch.  A
    handler that calls [fetch] is split in two: what runs at once, and
    what the promise chain runs when the reply is in.  The timer that
    [showError] starts is recorded, not run. *)

Module Page.

(** The five emoji of [showATMDetails], named after the rule that
    picks each. *)
Inductive icon : Type :=
| IconAtm | IconDeposit | IconCardless | IconBalance | IconWithdraw.

(** [toLowerCase], on ASCII text. *)
Definition lower (c : ascii) : ascii :=
  let n := nat_of_ascii c in
  if (65 <=? n)%nat && (n <=? 90)%nat then ascii_of_nat (n + 32) else c.

Fixpoint toLowerCase (s : string) : string :=
  match s with
  | EmptyString => EmptyString
  | String c tl => String (lower c) (toLowerCase tl)
  end.

(** [s.includes(sub)]. *)
Fixpoint includes (s sub : string) : bool :=
  String.prefix sub s
  || match s with
     | EmptyString => false
     | String _ tl => includes tl sub
     end.

(** The emoji of a service badge: four tests in a row, each overwriting
    what the one before chose. *)
Definition service_icon (service : string) : icon :=
  let emoji := IconAtm in
  let emoji :=
    if includes (toLowerCase service) "deposit" then IconDeposit
    else emoji in
  let emoji :=
    if includes (toLowerCase service) "cardless" then IconCardless
    else emoji in
  let emoji :=
    if includes (toLowerCase service) "balance" then IconBalance
    else emoji in
  let emoji :=
    if includes (toLowerCase service) "withdraw" then IconWithdraw
    else emoji in
  emoji.

(** A child of [#services-container]: a badge with the text
    [`${emoji} ${service}`], or the paragraph that says there is none. *)
Inductive element : Type :=
| Badge (emoji : icon) (service : string)
| Paragraph (text : string).

(** A marker on the map: where it is, its popup, and the id that a
    click on it passes to [fetchATMDetails]. *)
Record marker : Type := Marker
  { at_lat : R; at_lng : R; popup : string; on_click : option Z }.

Record State : Type := mkState
  { userPosition : option (R * R);
    markerLayer : option (list marker);
    atmMarkers : list marker;
    radius_select : string;          (* value of [#radius-select] *)
    side_panel_active : bool;        (* class [active] on [#side-panel] *)
    spinner_shown : bool;            (* [#loading-spinner]: flex or none *)
    error_text : string;             (* [#error-message] *)
    error_shown : bool;
    error_timers : nat;              (* pending [setTimeout] callbacks *)
    atm_name : string;
    atm_address : string;
    services_container : list element }.

Definition showLoading (isLoading : bool) (s : State) : State :=
  mkState (userPosition s) (markerLayer s) (atmMarkers s) (radius_select s)
          (side_panel_active s) isLoading (error_text s) (error_shown s)
          (error_timers s) (atm_name s) (atm_address s)
          (services_container s).

Definition showError (message : string) (s : State) : State :=
  mkState (userPosition s) (markerLayer s) (atmMarkers s) (radius_select s)
          (side_panel_active s) (spinner_shown s) message true
          (S (error_timers s)) (atm_name s) (atm_address s)
          (services_container s).

(** The callback of the timer. *)
Definition error_timeout (s : State) : State :=
  mkState (userPosition s) (markerLayer s) (atmMarkers s) (radius_select s)
          (side_panel_active s) (spinner_shown s) (error_text s) false
          (Nat.pred (error_timers s)) (atm_name s) (atm_address s)
          (services_container s).

Definition set_panel (active : bool) (s : State) : State :=
  mkState (userPosition s) (markerLayer s) (atmMarkers s) (radius_select s)
          active (spinner_shown s) (error_text s) (error_shown s)
          (error_timers s) (atm_name s) (atm_address s)
          (services_container s).

Definition openSidePanel : State -> State := set_panel true.
Definition closeSidePanel : State -> State := set_panel false.

Definition set_markers (layer : option (list marker)) (ms : list marker)
           (s : State) : State :=
  mkState (userPosition s) layer ms (radius_select s)
          (side_panel_active s) (spinner_shown s) (error_text s)
          (error_shown s) (error_timers s) (atm_name s) (atm_address s)
          (services_container s).

(** [if (markerLayer) markerLayer.clearLayers(); atmMarkers = []]. *)
Definition clearATMMarkers (s : State) : State :=
  set_markers (match markerLayer s with
               | Some _ => Some []
               | None => None
               end) [] s.

(** What a handler leaves when it returns, or when it throws. *)
Inductive outcome : Type :=
| Done (s : State)
| Thrown (s : State).

Definition marker_of (atm : Dict.t) : marker :=
  Marker (Dict.lat atm) (Dict.lng atm)
         ("<b>" ++ Dict.name atm ++ "</b><br>" ++ Dict.address atm)
         (Dict.id atm).

(** [atms.forEach(...)]: [addTo] throws on a [null] layer group. *)
Fixpoint add_markers (atms : list Dict.t) (s : State) : outcome :=
  match atms with
  | [] => Done s
  | atm :: tl =>
      match markerLayer s with
      | None => Thrown s
      | Some layer =>
          add_markers tl
            (set_markers (Some (layer ++ [marker_of atm])%list)
                         (atmMarkers s ++ [marker_of atm])%list s)
      end
  end.

Definition displayATMs (atms : list Dict.t) (s : State) : outcome :=
  add_markers atms (clearATMMarkers s).

(** The request of [refreshATMs]: the numbers and the text that the
    template literal puts in the query string. *)
Record list_request : Type := ListRequest
  { q_lat : R; q_lng : R; q_radius : string }.

(** [refreshATMs], up to and including the call of [fetch]. *)
Definition refreshATMs (s : State) : State * option list_request :=
  match userPosition s with
  | None => (showError "User location not available" s, None)
  | Some (lat, lng) =>
      (closeSidePanel (clearATMMarkers (showLoading true s)),
       Some (ListRequest lat lng (radius_select s)))
  end.

(** What [fetch] settles with: a network failure, or a status and the
    parsed body ([None] when the body is not JSON, so that
    [response.json()] rejects). *)
Inductive reply (A : Type) : Type :=
| NetworkError
| Reply (status : Z) (data : option A).
Arguments NetworkError {A}.
Arguments Reply {A} status data.

(** [response.ok]. *)
Definition response_ok (status : Z) : bool :=
  (200 <=? status) && (status <=? 299).

Definition atms_failed : string := "Failed to fetch ATMs. Please try again.".
Definition atms_none : string :=
  "No ATMs found in this area. Try increasing the radius.".
Definition details_failed : string :=
  "Failed to load ATM details. Please try again.".

(** The promise chain of [refreshATMs]; the data of a reply is
    [data.atms], [None] when the body has no such property. *)
Definition refreshATMs_settled (rp : reply (option (list Dict.t)))
           (s : State) : State :=
  showLoading false
    (match rp with
     | NetworkError => showError atms_failed s
     | Reply status data =>
         if response_ok status then
           match data with
           | None => showError atms_failed s
           | Some (Some (atm :: tl)) =>
               match displayATMs (atm :: tl) s with
               | Done s' => s'
               | Thrown s' => showError atms_failed s'
               end
           | Some _ => showError atms_none s
           end
         else showError atms_failed s
     end).

(** [fetchATMDetails], up to and including the call of [fetch]. *)
Definition fetchATMDetails (atmId : option Z) (s : State)
  : State * option Z :=
  (showLoading true s, atmId).

Definition showATMDetails (atm : Dict.t) (s : State) : State :=
  openSidePanel
    (mkState (userPosition s) (markerLayer s) (atmMarkers s)
             (radius_select s) (side_panel_active s) (spinner_shown s)
             (error_text s) (error_shown s) (error_timers s)
             (Dict.name atm) (Dict.address atm)
             (match Dict.services atm with
              | [] => [Paragraph "No specific services information available."]
              | _ :: _ =>
                  map (fun service => Badge (service_icon service) service)
                      (Dict.services atm)
              end)).

(** The promise chain of [fetchATMDetails]; the data of a reply is the
    record that the detail route sends with 200. *)
Definition fetchATMDetails_settled (rp : reply Dict.t) (s : State)
  : State :=
  showLoading false
    (match rp with
     | NetworkError => showError details_failed s
     | Reply status data =>
         if response_ok status then
           match data with
           | None => showError details_failed s
           | Some atm => showATMDetails atm s
           end
         else showError details_failed s
     end).

(** The replies that the two routes of this server make. *)
Definition atms_reply (r : response) : reply (option (list Dict.t)) :=
  Reply (status r)
        (Some (match content r with
               | Atms l => Some l
               | _ => None
               end)).

Definition atm_reply (r : response) : reply Dict.t :=
  Reply (status r)
        (match content r with
         | Atm d => Some d
         | _ => None     (* an error body: the status is not ok, it is not read *)
         end).

(** The options of [#radius-select], and the [change] event on it. *)
Definition radius_options : list string := ["500"; "1000"; "2000"; "5000"].

Definition set_radius (v : string) (s : State) : State :=
  mkState (userPosition s) (markerLayer s) (atmMarkers s) v
          (side_panel_active s) (spinner_shown s) (error_text s)
          (error_shown s) (error_timers s) (atm_name s) (atm_address s)
          (services_container s).

(** The document as the template makes it (the white space around the
    text of [#error-message] left out). *)
Definition loaded : State :=
  mkState None None [] "1000" false false
          "Error loading ATMs. Please try again." false 0
          "ATM Name" "Loading address..." [].

(** New York City. *)
Definition fallback_position : R * R :=
  (407128 / 10000, -74006 / 1000)%R.

Definition set_position (p : R * R) (s : State) : State :=
  mkState (Some p) (markerLayer s) (atmMarkers s) (radius_select s)
          (side_panel_active s) (spinner_shown s) (error_text s)
          (error_shown s) (error_timers s) (atm_name s) (atm_address s)
          (services_container s).

(** [initMap]: of the map it builds, the record keeps the new, empty
    layer group of the ATM markers. *)
Definition initMap (s : State) : State :=
  set_markers (Some []) (atmMarkers s) s.

(** [getUserLocation], up to the call of [getCurrentPosition] where the
    browser has geolocation. *)
Definition getUserLocation (supported : bool) (s : State) : State :=
  if supported then showLoading true s
  else initMap
         (set_position fallback_position
            (showLoading false
               (showError "Geolocation is not supported by your browser"
                          (showLoading true s)))).

(** The two callbacks of [getCurrentPosition]. *)
Definition located (p : R * R) (s : State) : State * option list_request :=
  refreshATMs (initMap (set_position p s)).

Definition location_failed (s : State) : State :=
  initMap
    (set_position fallback_position
       (showLoading false
          (showError
             "Unable to get your location. Please allow location access and refresh the page."
             s))).

(** [initApp]: the listeners it registers are the steps below. *)
Definition initApp (supported : bool) : State :=
  getUserLocation supported loaded.

(** One event of the page.  [getCurrentPosition] calls one of its
    callbacks, once; a marker can be clicked while it is on the map; a
    timer fires while one is pending; a reply may be anything. *)
Inductive step : State -> State -> Prop :=
| step_located : forall s p,
    userPosition s = None -> step s (fst (located p s))
| step_location_failed : forall s,
    userPosition s = None -> step s (location_failed s)
| step_click_refresh : forall s,
    step s (fst (refreshATMs s))
| step_change_radius : forall s v,
    In v radius_options -> step s (fst (refreshATMs (set_radius v s)))
| step_list_reply : forall s rp,
    step s (refreshATMs_settled rp s)
| step_click_marker : forall s m,
    In m (atmMarkers s) -> step s (fst (fetchATMDetails (on_click m) s))
| step_detail_reply : forall s rp,
    step s (fetchATMDetails_settled rp s)
| step_close_panel : forall s,
    step s (closeSidePanel s)
| step_error_timeout : forall s,
    (0 < error_timers s)%nat -> step s (error_timeout s).

Inductive reachable : State -> Prop :=
| reach_start : forall supported, reachable (initApp supported)
| reach_step : forall s s', reachable s -> step s s' -> reachable s'.

(** What the handlers keep true of the page. *)
Definition consistent (s : State) : Prop :=
  markerLayer s = match userPosition s with
                  | Some _ => Some (atmMarkers s)
                  | None => None
                  end
  /\ (userPosition s = None -> atmMarkers s = [])
  /\ In (radius_select s) radius_options
  /\ (error_shown s = true -> (0 < error_timers s)%nat).

End Page.

(** The page once [initMap] has run on the fallback position, nothing
    loaded yet. *)
Definition page_ready : Page.State :=
  Page.mkState (Some (407128 / 10000, -74006 / 1000)%R) (Some []) []
               "1000" false false "Error loading ATMs. Please try again."
               false 0 "ATM Name" "Loading address..." [].

(** Unfolding of the primitives of a handler on an explicit world. *)
Ltac run_handler :=
  cbv beta iota delta
      [bind ret raise lift utcnow Db.open_session Db.close_session
       Db.query_fresh Db.query_all Db.query_get Db.query_delete Db.commit
       Db.statement set_cpos set_pend set_sess set_dpos set_rpos set_table
       table sess pend entropy rpos wallclock cpos faults dpos failed
       left_behind].

(* ================================================================== *)
(** * Properties *)

(** ** Running a handler step by step *)

Lemma bind_ok {A B} (c : M A) (k : A -> M B) w a w1 :
  c w = (Ok a, w1) -> bind c k w = k a w1.
Proof. unfold bind; intros ->; reflexivity. Qed.

Lemma bind_raise {A B} (c : M A) (k : A -> M B) w e w1 :
  c w = (Raise e, w1) -> bind c k w = (Raise e, w1).
Proof. unfold bind; intros ->; reflexivity. Qed.

Lemma rng_only_refl w : rng_only w w.
Proof. destruct w; reflexivity. Qed.

Lemma rng_only_trans w1 w2 w3 :
  rng_only w1 w2 -> rng_only w2 w3 -> rng_only w1 w3.
Proof. unfold rng_only; intros H1 H2; rewrite H2, H1; reflexivity. Qed.

Lemma rng_only_draw w : rng_only w (set_rpos (S (rpos w)) w).
Proof. reflexivity. Qed.

Lemma rng_only_entropy w w' : rng_only w w' -> entropy w' = entropy w.
Proof. intros ->; reflexivity. Qed.

(** ** The [random] module *)

Lemma set_nth_length {A} (j : nat) (x : A) pool :
  List.length (Random.set_nth j x pool) = List.length pool.
Proof.
  revert j; induction pool as [|y tl IH]; intros [|j]; simpl; auto.
Qed.

Lemma set_nth_same {A} (j : nat) (x : A) pool :
  (j < List.length pool)%nat ->
  nth_error (Random.set_nth j x pool) j = Some x.
Proof.
  revert j; induction pool as [|y tl IH]; intros [|j]; simpl; intros H;
    try lia; auto.
  apply IH; lia.
Qed.

Lemma set_nth_other {A} (j i : nat) (x : A) pool :
  i <> j -> nth_error (Random.set_nth j x pool) i = nth_error pool i.
Proof.
  revert j i; induction pool as [|y tl IH]; intros [|j] [|i]; simpl;
    intros H; auto; try congruence.
Qed.

(** The live prefix of the pool after one selection holds the items of
    the old live prefix, the selected one excepted. *)
Lemma pool_step {A} (pool : list A) (m j : nat) x last y :
  (0 < m <= List.length pool)%nat -> (j < m)%nat ->
  NoDup (firstn m pool) ->
  nth_error pool j = Some x -> nth_error pool (m - 1) = Some last ->
  In y (firstn (m - 1) (Random.set_nth j last pool)) ->
  In y (firstn m pool) /\ y <> x.
Proof.
  intros Hm Hj Hnd Hx Hlast Hy.
  apply In_nth_error in Hy; destruct Hy as [i Hi].
  rewrite nth_error_firstn in Hi.
  destruct (Nat.ltb_spec i (m - 1)) as [Hlt|]; [|discriminate].
  assert (Hlen : List.length (firstn m pool) = m)
    by (rewrite length_firstn; lia).
  assert (Hfj : nth_error (firstn m pool) j = Some x).
  { rewrite nth_error_firstn.
    destruct (Nat.ltb_spec j m); [assumption|lia]. }
  destruct (Nat.eq_dec i j) as [->|Hne].
  - rewrite set_nth_same in Hi by lia.
    injection Hi as <-.
    assert (Hfl : nth_error (firstn m pool) (m - 1) = Some last).
    { rewrite nth_error_firstn.
      destruct (Nat.ltb_spec (m - 1) m); [assumption|lia]. }
    split; [eapply nth_error_In; eassumption|].
    intros ->.
    assert (j = (m - 1)%nat); [|lia].
    apply (proj1 (NoDup_nth_error (firstn m pool)) Hnd);
      [lia|congruence].
  - rewrite set_nth_other in Hi by assumption.
    assert (Hfi : nth_error (firstn m pool) i = Some y).
    { rewrite nth_error_firstn.
      destruct (Nat.ltb_spec i m); [assumption|lia]. }
    split; [eapply nth_error_In; eassumption|].
    intros ->.
    apply Hne.
    apply (proj1 (NoDup_nth_error (firstn m pool)) Hnd);
      [lia|congruence].
Qed.

Lemma pool_step_NoDup {A} (pool : list A) (m j : nat) last :
  (0 < m <= List.length pool)%nat -> (j < m)%nat ->
  NoDup (firstn m pool) ->
  nth_error pool (m - 1) = Some last ->
  NoDup (firstn (m - 1) (Random.set_nth j last pool)).
Proof.
  intros Hm Hj Hnd Hlast.
  apply NoDup_nth_error.
  intros i1 i2 H1 H12.
  rewrite length_firstn, set_nth_length in H1.
  assert (Hlen : List.length (firstn m pool) = m)
    by (rewrite length_firstn; lia).
  assert (Hget : forall i, (i < m)%nat ->
            nth_error (firstn m pool) i = nth_error pool i).
  { intros i Hi; rewrite nth_error_firstn.
    destruct (Nat.ltb_spec i m); [reflexivity|lia]. }
  assert (Hinj : forall a b, (a < m)%nat -> (b < m)%nat ->
            nth_error pool a = nth_error pool b -> a = b).
  { intros a b Ha Hb Hab.
    apply (proj1 (NoDup_nth_error (firstn m pool)) Hnd); [lia|].
    rewrite !Hget by lia; assumption. }
  rewrite !nth_error_firstn in H12.
  destruct (Nat.ltb_spec i1 (m - 1)) as [Hi1|]; [|lia].
  destruct (Nat.ltb_spec i2 (m - 1)) as [Hi2|Hi2].
  - destruct (Nat.eq_dec i1 j) as [->|N1], (Nat.eq_dec i2 j) as [->|N2];
      auto.
    + rewrite set_nth_same, set_nth_other in H12 by (assumption || lia).
      rewrite <- Hlast in H12.
      apply Hinj in H12; lia.
    + rewrite set_nth_other, set_nth_same in H12 by (assumption || lia).
      rewrite <- Hlast in H12. symmetry in H12.
      apply Hinj in H12; lia.
    + rewrite !set_nth_other in H12 by assumption.
      apply Hinj in H12; lia.
  - exfalso.
    assert (Hs : nth_error (Random.set_nth j last pool) i1 <> None)
      by (apply nth_error_Some; rewrite set_nth_length; lia).
    congruence.
Qed.

Lemma mod_index (x : Z) (m : nat) :
  (0 < m)%nat -> (Z.to_nat (x mod Z.of_nat m) < m)%nat.
Proof.
  intros Hm.
  pose proof (Z.mod_pos_bound x (Z.of_nat m) ltac:(lia)). lia.
Qed.

Lemma nth_error_in_range {A} (l : list A) (i : nat) :
  (i < List.length l)%nat -> exists x, nth_error l i = Some x.
Proof.
  intros H. apply nth_error_Some in H.
  destruct (nth_error l i) as [x|]; [eauto|congruence].
Qed.

Lemma sample_loop_spec {A} (k : nat) :
  forall (pool : list A) (m : nat) w,
    (k <= m <= List.length pool)%nat -> NoDup (firstn m pool) ->
    exists l w', Random.sample_loop k pool m w = (Ok l, w')
                 /\ List.length l = k /\ NoDup l
                 /\ (forall y, In y l -> In y (firstn m pool))
                 /\ rng_only w w'.
Proof.
  induction k as [|k IH]; intros pool m w Hm Hnd.
  - exists [], w. repeat split; auto using rng_only_refl.
    + constructor.
    + intros y [].
  - cbn [Random.sample_loop].
    unfold bind at 1. cbn [Random.randbelow Random.draw bind ret].
    set (j := Z.to_nat (entropy w (rpos w) mod Z.of_nat m)).
    assert (Hj : (j < m)%nat) by (apply mod_index; lia).
    destruct (nth_error_in_range pool j ltac:(lia)) as [x Hx].
    destruct (nth_error_in_range pool (m - 1) ltac:(lia)) as [last Hlast].
    rewrite Hx, Hlast.
    destruct (IH (Random.set_nth j last pool) (m - 1)%nat
                 (set_rpos (S (rpos w)) w))
      as (rest & w' & Hrun & Hlen & Hndr & Hin & Hrng).
    { rewrite set_nth_length; lia. }
    { apply pool_step_NoDup; auto; lia. }
    exists (x :: rest), w'.
    rewrite (bind_ok _ _ _ _ _ Hrun).
    assert (Hstep : forall y, In y rest -> In y (firstn m pool) /\ y <> x).
    { intros y Hy. eapply pool_step; eauto; lia. }
    repeat split.
    + simpl; lia.
    + constructor; [|assumption].
      intros Hxin. apply Hstep in Hxin. tauto.
    + intros y [<-|Hy]; [|apply Hstep; assumption].
      apply nth_error_In with (n := j).
      rewrite nth_error_firstn.
      destruct (Nat.ltb_spec j m); [assumption|lia].
    + eapply rng_only_trans; [apply rng_only_draw|exact Hrng].
Qed.

Lemma sample_spec {A} (population : list A) (k : Z) w :
  NoDup population -> 0 <= k <= Z.of_nat (List.length population) ->
  exists l w', Random.sample population k w = (Ok l, w')
               /\ Z.of_nat (List.length l) = k /\ NoDup l
               /\ incl l population /\ rng_only w w'.
Proof.
  intros Hnd Hk. unfold Random.sample.
  destruct (Z.leb_spec 0 k); [|lia].
  destruct (Z.leb_spec k (Z.of_nat (List.length population))); [|lia].
  cbn [andb].
  destruct (sample_loop_spec (Z.to_nat k) population
              (List.length population) w)
    as (l & w' & Hrun & Hlen & Hndl & Hin & Hrng).
  { lia. }
  { rewrite firstn_all; assumption. }
  exists l, w'. rewrite firstn_all in Hin.
  repeat split; auto. lia.
Qed.

Lemma randint_spec (a b : Z) w :
  a <= b ->
  exists x, Random.randint a b w = (Ok x, set_rpos (S (rpos w)) w)
            /\ a <= x <= b /\ x = a + entropy w (rpos w) mod (b + 1 - a).
Proof.
  intros Hab. unfold Random.randint.
  destruct (Z.ltb_spec 0 (b + 1 - a)); [|lia].
  eexists; split; [reflexivity|].
  pose proof (Z.mod_pos_bound (entropy w (rpos w)) (b + 1 - a) ltac:(lia)).
  split; [lia|reflexivity].
Qed.

Lemma choice_spec {A} (seq : list A) w :
  seq <> [] ->
  exists x, Random.choice seq w = (Ok x, set_rpos (S (rpos w)) w)
            /\ In x seq.
Proof.
  intros Hne. destruct seq as [|a tl]; [congruence|].
  unfold Random.choice.
  unfold bind at 1. cbn [Random.randbelow Random.draw bind ret].
  set (l := a :: tl).
  set (i := Z.to_nat (entropy w (rpos w) mod Z.of_nat (List.length l))).
  assert (Hi : (i < List.length l)%nat) by (apply mod_index; simpl; lia).
  destruct (nth_error_in_range l i Hi) as [x Hx].
  rewrite Hx. exists x; split; [reflexivity|].
  eapply nth_error_In; eassumption.
Qed.


(** ** [generate_mock_atms] *)

Lemma all_services_NoDup : NoDup all_services.
Proof.
  unfold all_services.
  repeat (constructor; [cbn; intuition discriminate|]); constructor.
Qed.

Lemma random_spec w :
  Random.random w
  = (Ok (Random.unit_float (entropy w (rpos w))), set_rpos (S (rpos w)) w).
Proof. reflexivity. Qed.

Lemma generate_one_spec (lat lng radius_lat radius_lng : R) w :
  exists a w',
    generate_one lat lng radius_lat radius_lng w = (Ok a, w')
    /\ generated_record (entropy w) lat lng radius_lat radius_lng a
    /\ rng_only w w'.
Proof.
  unfold generate_one.
  rewrite (bind_ok _ _ _ _ _ (random_spec w)).
  set (w1 := set_rpos _ w).
  rewrite (bind_ok _ _ _ _ _ (random_spec w1)).
  set (w2 := set_rpos _ w1).
  destruct (choice_spec bank_names w2 ltac:(discriminate))
    as (bank & Hbank & Hbin).
  rewrite (bind_ok _ _ _ _ _ Hbank).
  set (w3 := set_rpos _ w2).
  destruct (randint_spec 1 999 w3 ltac:(lia)) as (n & Hn & Hnr & _).
  rewrite (bind_ok _ _ _ _ _ Hn).
  set (w4 := set_rpos _ w3).
  destruct (choice_spec street_names w4 ltac:(discriminate))
    as (street & Hstreet & Hsin).
  rewrite (bind_ok _ _ _ _ _ Hstreet).
  set (w5 := set_rpos _ w4).
  destruct (randint_spec 2 4 w5 ltac:(lia)) as (k & Hk & Hkr & _).
  rewrite (bind_ok _ _ _ _ _ Hk).
  set (w6 := set_rpos _ w5).
  destruct (sample_spec all_services k w6 all_services_NoDup)
    as (sv & w7 & Hsv & Hlen & Hnd & Hincl & Hrng).
  { cbn; lia. }
  rewrite (bind_ok _ _ _ _ _ Hsv).
  eexists; exists w7; split; [reflexivity|]; split.
  - repeat split.
    + exists (rpos w); split; reflexivity.
    + exists bank; split; [assumption|reflexivity].
    + exists n, street; repeat split; auto; lia.
    + cbn [Mock.services]; lia.
    + cbn [Mock.services]; lia.
    + assumption.
    + assumption.
  - eapply rng_only_trans; [|exact Hrng].
    subst w6 w5 w4 w3 w2 w1; reflexivity.
Qed.

Lemma generate_loop_spec (lat lng radius_lat radius_lng : R) (n : nat) :
  forall w, exists l w',
    generate_loop n lat lng radius_lat radius_lng w = (Ok l, w')
    /\ List.length l = n
    /\ Forall (generated_record (entropy w) lat lng radius_lat radius_lng) l
    /\ rng_only w w'.
Proof.
  induction n as [|n IH]; intros w.
  - exists [], w; repeat split; auto using rng_only_refl.
  - cbn [generate_loop].
    destruct (generate_one_spec lat lng radius_lat radius_lng w)
      as (a & w1 & Ha & Hrec & Hr1).
    rewrite (bind_ok _ _ _ _ _ Ha).
    destruct (IH w1) as (l & w2 & Hl & Hlen & Hall & Hr2).
    rewrite (bind_ok _ _ _ _ _ Hl).
    exists (a :: l), w2; repeat split.
    + simpl; lia.
    + constructor; [assumption|].
      rewrite (rng_only_entropy _ _ Hr1) in Hall; assumption.
    + eapply rng_only_trans; eassumption.
Qed.

Lemma lng_divisor_nonzero (lat : R) :
  cos (radians lat) <> 0%R -> (111000 * Rabs (cos (radians lat)))%R <> 0%R.
Proof.
  intros H. apply Rmult_integral_contrapositive_currified; [lra|].
  apply Rabs_no_R0; assumption.
Qed.

Lemma generate_mock_atms_spec (lat lng : R) (radius count : Z) w :
  cos (radians lat) <> 0%R ->
  exists l w',
    generate_mock_atms lat lng radius count w = (Ok l, w')
    /\ List.length l = Z.to_nat count
    /\ Forall (generated_record (entropy w) lat lng
                                (lat_span radius) (lng_span lat radius)) l
    /\ rng_only w w'.
Proof.
  intros Hcos. unfold generate_mock_atms, fdiv.
  destruct (Req_dec_T 111000 0) as [H0|_]; [lra|].
  destruct (Req_dec_T (111000 * Rabs (cos (radians lat))) 0) as [H0|_];
    [apply lng_divisor_nonzero in H0; tauto|].
  unfold bind at 1; cbn [ret].
  unfold bind at 1; cbn [ret].
  apply generate_loop_spec.
Qed.

Lemma generate_mock_atms_zero (lat lng : R) (radius count : Z) w :
  cos (radians lat) = 0%R ->
  generate_mock_atms lat lng radius count w = (Raise ZeroDivisionError, w).
Proof.
  intros Hcos. unfold generate_mock_atms, fdiv.
  destruct (Req_dec_T 111000 0) as [H0|_]; [lra|].
  destruct (Req_dec_T (111000 * Rabs (cos (radians lat))) 0) as [_|H0].
  - reflexivity.
  - exfalso; apply H0. rewrite Hcos, Rabs_R0; lra.
Qed.

(** ** Rows of a batch *)

Lemma max_id_snoc rows i a :
  Db.max_id (rows ++ [ATM.with_id i a]) = Z.max (Db.max_id rows) i.
Proof.
  induction rows as [|b tl IH].
  - cbn. lia.
  - change (Db.max_id ((b :: tl) ++ [ATM.with_id i a]))
      with (match ATM.id b with
            | Some j => Z.max j (Db.max_id (tl ++ [ATM.with_id i a]))
            | None => Db.max_id (tl ++ [ATM.with_id i a])
            end).
    change (Db.max_id (b :: tl))
      with (match ATM.id b with
            | Some j => Z.max j (Db.max_id tl)
            | None => Db.max_id tl
            end).
    rewrite IH. destruct (ATM.id b); lia.
Qed.

Lemma max_id_nonneg rows : 0 <= Db.max_id rows.
Proof.
  induction rows as [|b tl IH]; [cbn; lia|].
  change (Db.max_id (b :: tl))
    with (match ATM.id b with
          | Some j => Z.max j (Db.max_id tl)
          | None => Db.max_id tl
          end).
  destruct (ATM.id b); lia.
Qed.

Lemma flush_keyed pending :
  forall rows,
    Db.flush rows pending = (rows ++ keyed (Db.next_id rows) pending)%list.
Proof.
  induction pending as [|a tl IH]; intros rows; cbn.
  - rewrite app_nil_r; reflexivity.
  - rewrite IH, <- app_assoc. cbn. do 3 f_equal.
    unfold Db.next_id. rewrite max_id_snoc.
    pose proof (max_id_nonneg rows). lia.
Qed.

Lemma new_rows_keyed atm_data clock c :
  new_rows atm_data clock c = keyed 1 (stamped atm_data clock c).
Proof. unfold new_rows. rewrite flush_keyed. reflexivity. Qed.

Lemma new_rows_payload atm_data clock c :
  map ATM.payload (new_rows atm_data clock c) = atm_data.
Proof.
  rewrite new_rows_keyed. generalize 1. revert c.
  induction atm_data as [|a tl IH]; intros c k; cbn; [reflexivity|].
  rewrite IH. destruct a; reflexivity.
Qed.

Lemma new_rows_length atm_data clock c :
  List.length (new_rows atm_data clock c) = List.length atm_data.
Proof.
  rewrite <- (new_rows_payload atm_data clock c) at 2.
  rewrite length_map; reflexivity.
Qed.

Lemma new_rows_fetched_at atm_data clock c :
  map ATM.fetched_at (new_rows atm_data clock c)
  = map (fun i => Some (clock i)) (seq c (List.length atm_data)).
Proof.
  rewrite new_rows_keyed. generalize 1. revert c.
  induction atm_data as [|a tl IH]; intros c k; cbn; [reflexivity|].
  rewrite IH; reflexivity.
Qed.

Lemma keyed_ids pending :
  forall k, map ATM.id (keyed k pending)
            = map (fun i => Some (k + Z.of_nat i))
                  (seq 0 (List.length pending)).
Proof.
  induction pending as [|a tl IH]; intros k; cbn; [reflexivity|].
  rewrite IH, <- seq_shift, map_map. f_equal; [f_equal; lia|].
  apply map_ext; intros i; f_equal; lia.
Qed.

Lemma stamped_length atm_data clock :
  forall c, List.length (stamped atm_data clock c) = List.length atm_data.
Proof.
  induction atm_data as [|a tl IH]; intros c; cbn; [reflexivity|].
  rewrite IH; reflexivity.
Qed.

Lemma new_rows_ids atm_data clock c :
  map ATM.id (new_rows atm_data clock c)
  = map (fun i => Some (1 + Z.of_nat i)) (seq 0 (List.length atm_data)).
Proof.
  rewrite new_rows_keyed, keyed_ids, stamped_length. reflexivity.
Qed.

Lemma NoDup_map_injective {A B} (f : A -> B) (l : list A) :
  (forall x y, f x = f y -> x = y) -> NoDup l -> NoDup (map f l).
Proof.
  intros Hinj Hnd; induction Hnd as [|x l Hx Hnd IH]; cbn; constructor;
    [|assumption].
  intros Hin. apply in_map_iff in Hin. destruct Hin as (y & Hy & Hyl).
  apply Hinj in Hy. subst y. contradiction.
Qed.

Lemma new_rows_ids_NoDup atm_data clock c :
  NoDup (map ATM.id (new_rows atm_data clock c)).
Proof.
  rewrite new_rows_ids.
  apply NoDup_map_injective; [|apply seq_NoDup].
  intros i j H.
  assert (1 + Z.of_nat i = 1 + Z.of_nat j) by congruence. lia.
Qed.

(** The rows of a batch that pass the freshness test are those whose
    clock cell does. *)
Lemma filter_fresh_length thr (rows : list ATM.t) (stamps : list Z) :
  map ATM.fetched_at rows = map Some stamps ->
  List.length (filter (Db.is_fresh thr) rows)
  = List.length (filter (fun t => thr <=? t) stamps).
Proof.
  revert stamps; induction rows as [|a tl IH]; intros [|t ts] H;
    try discriminate; [reflexivity|].
  cbn in H. injection H as Ha Htl.
  cbn [filter]. unfold Db.is_fresh at 1. rewrite Ha.
  destruct (thr <=? t); cbn [List.length]; rewrite (IH ts Htl); reflexivity.
Qed.

Lemma new_rows_fresh_length thr atm_data clock c :
  List.length (filter (Db.is_fresh thr) (new_rows atm_data clock c))
  = List.length (filter (fun t => thr <=? t)
                        (map clock (seq c (List.length atm_data)))).
Proof.
  apply filter_fresh_length.
  rewrite new_rows_fetched_at, map_map. reflexivity.
Qed.

(** ** The routes *)

Lemma add_all_spec (atm_data : list Mock.t) :
  forall t s p e r c cp f dp,
    add_all atm_data (mkWorld t s p e r c cp f dp)
    = (Ok tt, mkWorld t s (p ++ stamped atm_data c cp)%list e r c
                      (cp + List.length atm_data)%nat f dp).
Proof.
  induction atm_data as [|a tl IH]; intros.
  - cbn. rewrite app_nil_r, Nat.add_0_r. reflexivity.
  - cbn [add_all stamped List.length].
    cbv beta iota delta [bind utcnow Db.add set_cpos set_pend table sess
                         pend entropy rpos wallclock cpos faults dpos].
    rewrite IH. rewrite <- app_assoc. cbn [app].
    replace (S cp + List.length tl)%nat with (cp + S (List.length tl))%nat
      by lia.
    reflexivity.
Qed.

Lemma randint_5_15 w :
  Random.randint 5 15 w
  = (Ok (5 + entropy w (rpos w) mod 11), set_rpos (S (rpos w)) w).
Proof. reflexivity. Qed.

Lemma generate_frame lat lng radius count w r w' :
  generate_mock_atms lat lng radius count w = (r, w') -> rng_only w w'.
Proof.
  intros H. destruct (Req_dec_T (cos (radians lat)) 0) as [Hz|Hnz].
  - rewrite generate_mock_atms_zero in H by assumption.
    injection H as _ <-. apply rng_only_refl.
  - destruct (generate_mock_atms_spec lat lng radius count w Hnz)
      as (l & w1 & Hrun & _ & _ & Hr).
    rewrite Hrun in H. injection H as _ <-. exact Hr.
Qed.

Section RouteFacts.

Variable float_of_str : string -> option R.
Variable int_of_str : string -> option Z.

Local Abbreviation get_atms' := (get_atms float_of_str int_of_str).
Local Abbreviation get_atms_try' := (get_atms_try float_of_str int_of_str).
Local Abbreviation parsed' := (parsed float_of_str int_of_str).
Local Abbreviation float_arg' := (float_arg float_of_str).
Local Abbreviation int_arg' := (int_arg int_of_str).
Local Abbreviation full_batch' := (full_batch float_of_str int_of_str).

Lemma get_atms_try_parsed args lat lng radius w :
  parsed' args lat lng radius ->
  get_atms_try' args w = cached_or_refreshed lat lng radius w.
Proof.
  intros (Hlat & Hlng & Hrad). unfold get_atms_try.
  rewrite Hlat, Hlng, Hrad. reflexivity.
Qed.

(** A conversion raises: nothing else happens. *)
Lemma get_atms_unparsed args e w :
  float_arg' (args_get "lat" args) 0 = Raise e
  \/ (exists lat, float_arg' (args_get "lat" args) 0 = Ok lat
                  /\ float_arg' (args_get "lng" args) 0 = Raise e)
  \/ (exists lat lng, float_arg' (args_get "lat" args) 0 = Ok lat
                      /\ float_arg' (args_get "lng" args) 0 = Ok lng
                      /\ int_arg' (args_get "radius" args) DEFAULT_RADIUS
                         = Raise e) ->
  get_atms' args w
  = (failed e, left_behind w (table w) (rpos w) (cpos w) (dpos w)).
Proof.
  unfold get_atms, get_atms_try.
  intros [H|[(lat & H1 & H)|(lat & lng & H1 & H2 & H)]];
    rewrite ?H1, ?H2, H; destruct w; reflexivity.
Qed.

(** The first query raises. *)
Lemma get_atms_down args lat lng radius w :
  parsed' args lat lng radius ->
  faults w (dpos w) = true ->
  get_atms' args w
  = (failed OperationalError,
     left_behind w (table w) (rpos w) (S (cpos w)) (S (dpos w))).
Proof.
  intros Hp Hf. unfold get_atms.
  rewrite (get_atms_try_parsed _ _ _ _ _ Hp).
  unfold cached_or_refreshed.
  destruct w as [t s p en r c cp f dp].
  cbn [table sess pend entropy rpos wallclock cpos faults dpos] in *.
  run_handler. rewrite Hf. reflexivity.
Qed.

(** Cache hit. *)
Lemma get_atms_hit args lat lng radius w :
  parsed' args lat lng radius ->
  faults w (dpos w) = false ->
  fresh_rows w <> [] ->
  get_atms' args w
  = (Resp 200 (Atms (map to_dict (fresh_rows w))),
     left_behind w (table w) (rpos w) (S (cpos w)) (S (dpos w))).
Proof.
  intros Hp Hf Hfresh. unfold get_atms.
  rewrite (get_atms_try_parsed _ _ _ _ _ Hp).
  unfold cached_or_refreshed.
  destruct w as [t s p en r c cp f dp].
  unfold fresh_rows, threshold in *.
  cbn [table sess pend entropy rpos wallclock cpos faults dpos] in *.
  run_handler. rewrite Hf.
  destruct (filter _ t) as [|a l]; [congruence|]. reflexivity.
Qed.

(** Cache miss, and the generation raises. *)
Lemma get_atms_miss_raise args lat lng radius w e w3 :
  parsed' args lat lng radius ->
  faults w (dpos w) = false ->
  fresh_rows w = [] ->
  generate_mock_atms lat lng radius (num_atms w) (gen_world w)
  = (Raise e, w3) ->
  get_atms' args w
  = (failed e,
     left_behind w (table w) (rpos w3) (S (cpos w)) (S (dpos w))).
Proof.
  intros Hp Hf Hfresh Hgen. unfold get_atms.
  rewrite (get_atms_try_parsed _ _ _ _ _ Hp).
  unfold cached_or_refreshed.
  pose proof (generate_frame _ _ _ _ _ _ _ Hgen) as Hfr.
  unfold rng_only in Hfr. remember (rpos w3) as r3 eqn:Hr3. clear Hr3.
  subst w3.
  destruct w as [t s p en r c cp f dp].
  unfold fresh_rows, threshold, num_atms, gen_world in *.
  cbn [table sess pend entropy rpos wallclock cpos faults dpos set_rpos]
    in *.
  run_handler. rewrite Hf, Hfresh.
  unfold refresh. rewrite (bind_ok _ _ _ _ _ (randint_5_15 _)).
  cbn [table sess pend entropy rpos wallclock cpos faults dpos set_rpos].
  rewrite (bind_raise _ _ _ _ _ Hgen). reflexivity.
Qed.

(** Cache miss, and the generation returns [atm_data]. *)
Lemma get_atms_miss args lat lng radius w atm_data w3 :
  parsed' args lat lng radius ->
  faults w (dpos w) = false ->
  fresh_rows w = [] ->
  generate_mock_atms lat lng radius (num_atms w) (gen_world w)
  = (Ok atm_data, w3) ->
  atm_data <> [] ->
  get_atms' args w
  = let rows := new_rows atm_data (wallclock w) (S (cpos w)) in
    let c1 := S (cpos w) in
    let c2 := (S (cpos w) + List.length atm_data)%nat in
    let d := dpos w in
    if faults w (1 + d)%nat
    then (failed OperationalError,
          left_behind w (table w) (rpos w3) c1 (2 + d))
    else if faults w (2 + d)%nat
    then (failed OperationalError,
          left_behind w (table w) (rpos w3) c1 (3 + d))
    else if faults w (3 + d)%nat
    then (failed OperationalError, left_behind w [] (rpos w3) c2 (4 + d))
    else if faults w (4 + d)%nat
    then (failed OperationalError, left_behind w rows (rpos w3) c2 (5 + d))
    else (Resp 200 (Atms (map to_dict rows)),
          left_behind w rows (rpos w3) c2 (5 + d)).
Proof.
  intros Hp Hf Hfresh Hgen Hne. unfold get_atms.
  rewrite (get_atms_try_parsed _ _ _ _ _ Hp).
  unfold cached_or_refreshed.
  pose proof (generate_frame _ _ _ _ _ _ _ Hgen) as Hfr.
  unfold rng_only in Hfr. remember (rpos w3) as r3 eqn:Hr3. clear Hr3.
  subst w3.
  destruct w as [t s p en r c cp f dp].
  unfold fresh_rows, threshold, num_atms, gen_world in *.
  cbn [table sess pend entropy rpos wallclock cpos faults dpos set_rpos]
    in *.
  run_handler. rewrite Hf, Hfresh.
  unfold refresh. rewrite (bind_ok _ _ _ _ _ (randint_5_15 _)).
  cbn [table sess pend entropy rpos wallclock cpos faults dpos set_rpos].
  rewrite (bind_ok _ _ _ _ _ Hgen).
  destruct atm_data as [|a tl]; [congruence|].
  set (data := a :: tl) in *.
  run_handler. cbn [Nat.add].
  destruct (f (S dp)); [reflexivity|].
  destruct (f (S (S dp))); [reflexivity|].
  rewrite add_all_spec. cbn [app Db.flush].
  destruct (f (S (S (S dp)))); [reflexivity|].
  destruct (f (S (S (S (S dp))))); reflexivity.
Qed.

(** The detail route, in one equation. *)
Lemma get_atm_run k w :
  get_atm k w
  = ((if faults w (dpos w) then failed OperationalError
      else match find (Db.has_id k) (table w) with
           | Some a => Resp 200 (Atm (to_dict a))
           | None => Resp 404 (Error (Text "ATM not found"))
           end),
     left_behind w (table w) (rpos w) (cpos w) (S (dpos w))).
Proof.
  unfold get_atm, get_atm_try. destruct w as [t s p en r c cp f dp].
  run_handler. destruct (f dp); [reflexivity|].
  destruct (find (Db.has_id k) t); reflexivity.
Qed.

Lemma num_atms_range w : 5 <= num_atms w <= 15.
Proof.
  unfold num_atms.
  pose proof (Z.mod_pos_bound (entropy w (rpos w)) 11 ltac:(lia)). lia.
Qed.

(** Every way a request to the list route can end. *)
Lemma get_atms_outcome args w :
  exists resp w',
    get_atms' args w = (resp, w')
    /\ sess w' = [] /\ pend w' = []
    /\ ((fresh_rows w <> [] /\ table w' = table w
         /\ resp = Resp 200 (Atms (map to_dict (fresh_rows w))))
        \/ (fresh_rows w = [] /\ full_batch' args w (table w')
            /\ resp = Resp 200 (Atms (map to_dict (table w'))))
        \/ (exists e, resp = failed e
                      /\ (table w' = table w \/ table w' = []
                          \/ (fresh_rows w = []
                              /\ full_batch' args w (table w'))))).
Proof.
  destruct (float_arg' (args_get "lat" args) 0) as [lat|e] eqn:Hlat.
  2:{ eexists _, _; split;
      [apply get_atms_unparsed; left; exact Hlat|].
      cbn; repeat split. right; right; eauto. }
  destruct (float_arg' (args_get "lng" args) 0) as [lng|e] eqn:Hlng.
  2:{ eexists _, _; split;
      [apply get_atms_unparsed; right; left; eauto|].
      cbn; repeat split. right; right; eauto. }
  destruct (int_arg' (args_get "radius" args) DEFAULT_RADIUS)
    as [radius|e] eqn:Hrad.
  2:{ eexists _, _; split;
      [apply get_atms_unparsed; right; right; eauto|].
      cbn; repeat split. right; right; eauto. }
  assert (Hp : parsed' args lat lng radius) by (repeat split; assumption).
  destruct (faults w (dpos w)) eqn:Hf.
  { eexists _, _; split; [eapply get_atms_down; eassumption|].
    cbn; repeat split. right; right; eauto. }
  destruct (fresh_rows w) as [|a0 l0] eqn:Hfresh.
  2:{ eexists _, _; split.
      - eapply get_atms_hit; try eassumption. rewrite Hfresh; discriminate.
      - cbn; repeat split. left. rewrite Hfresh.
        repeat split; discriminate || reflexivity. }
  destruct (Req_dec_T (cos (radians lat)) 0) as [Hz|Hnz].
  { eexists _, _; split.
    - eapply get_atms_miss_raise; try eassumption.
      apply generate_mock_atms_zero; assumption.
    - cbn; repeat split. right; right; eauto. }
  destruct (generate_mock_atms_spec lat lng radius (num_atms w)
              (gen_world w) Hnz) as (atm_data & w3 & Hgen & Hlen & _ & _).
  pose proof (num_atms_range w) as Hn.
  assert (Hne : atm_data <> []).
  { intros ->. cbn [List.length] in Hlen. lia. }
  assert (Hfull : full_batch' args w
                    (new_rows atm_data (wallclock w) (S (cpos w)))).
  { exists lat, lng, radius, atm_data, w3. repeat split; auto; lia. }
  rewrite (get_atms_miss _ _ _ _ _ _ _ Hp Hf Hfresh Hgen Hne).
  cbv zeta.
  destruct (faults w (1 + dpos w));
    [eexists _, _; split; [reflexivity|]; cbn; repeat split; eauto 7|].
  destruct (faults w (2 + dpos w));
    [eexists _, _; split; [reflexivity|]; cbn; repeat split; eauto 7|].
  destruct (faults w (3 + dpos w));
    [eexists _, _; split; [reflexivity|]; cbn; repeat split; eauto 7|].
  destruct (faults w (4 + dpos w));
    eexists _, _; (split; [reflexivity|]); cbn; repeat split; eauto 8.
Qed.

(** What holds of the world between two requests. *)
Lemma reachable_inv w :
  reachable float_of_str int_of_str w ->
  sess w = [] /\ pend w = []
  /\ (table w = [] \/ one_generation (table w))
  /\ NoDup (map ATM.id (table w)).
Proof.
  induction 1 as [e c f|w args Hr IH|w k Hr IH].
  - cbn. repeat split; auto. constructor.
  - destruct IH as (_ & _ & Hgen & Hnd).
    destruct (get_atms_outcome args w)
      as (resp & w' & Hrun & Hs & Hp & Hcases).
    rewrite Hrun; cbn [snd].
    assert (Hb : forall rows, full_batch' args w rows ->
                   one_generation rows
                   /\ NoDup (map ATM.id rows)).
    { intros rows (lat & lng & radius & atm_data & w3 & _ & Hg & _ & ->).
      split; [|apply new_rows_ids_NoDup].
      exists lat, lng, radius, (num_atms w), (gen_world w), atm_data, w3.
      eauto. }
    repeat split; auto.
    + destruct Hcases
        as [(_ & -> & _)|[(_ & Hfull & _)
                         |(e & _ & [->|[->|(_ & Hfull)]])]];
        auto; right; apply Hb; assumption.
    + destruct Hcases
        as [(_ & -> & _)|[(_ & Hfull & _)
                         |(e & _ & [->|[->|(_ & Hfull)]])]];
        auto; try (apply Hb; assumption). constructor.
  - rewrite get_atm_run; cbn [snd]. destruct IH as (_ & _ & Hgen & Hnd).
    cbn. auto.
Qed.

End RouteFacts.

(** * The claims *)

(** ** Generation *)

Lemma cos_radians_nonzero (x : R) :
  (-90 < x < 90)%R -> cos (radians x) <> 0%R.
Proof.
  intros [Hlo Hhi]. apply Rgt_not_eq. apply cos_gt_0; unfold radians;
    pose proof PI_RGT_0; nra.
Qed.




(** C6.  Every record that [generate_mock_atms] returns has between 2
    and 4 services, without duplicates, all of them among the 6 entries
    of [all_services]. *)
Theorem generated_services
        (lat lng : R) (radius count : Z) (w : World)
        (l : list Mock.t) (w' : World) :
  generate_mock_atms lat lng radius count w = (Ok l, w') ->
  List.length all_services = 6%nat
  /\ Forall (fun a =>
               (2 <= List.length (Mock.services a) <= 4)%nat
               /\ NoDup (Mock.services a)
               /\ forall s, In s (Mock.services a) -> In s all_services) l.
Proof.
  intros Hgen. split; [reflexivity|].
  destruct (Req_dec_T (cos (radians lat)) 0) as [Hz|Hnz].
  - rewrite generate_mock_atms_zero in Hgen by assumption. discriminate.
  - destruct (generate_mock_atms_spec lat lng radius count w Hnz)
      as (l1 & w1 & Hrun & _ & Hall & _).
    rewrite Hrun in Hgen. injection Hgen as <- _.
    eapply Forall_impl; [|exact Hall].
    intros a (_ & _ & _ & (Hlen & Hnd & Hincl)).
    repeat split; try lia; auto.
Qed.

Lemma generated_services_witness :
  exists l w',
    generate_mock_atms 0 0 1000 5 (boot zeros zeros healthy) = (Ok l, w')
    /\ Forall (fun a =>
                 (2 <= List.length (Mock.services a) <= 4)%nat
                 /\ NoDup (Mock.services a)
                 /\ forall s, In s (Mock.services a) -> In s all_services) l.
Proof.
  destruct (generate_mock_atms_spec 0 0 1000 5 (boot zeros zeros healthy))
    as (l & w' & Hrun & _).
  { apply cos_radians_nonzero; lra. }
  exists l, w'. split; [exact Hrun|].
  exact (proj2 (generated_services _ _ _ _ _ _ _ Hrun)).
Defined.






(** ** The routes *)

Section Claims.

Variable float_of_str : string -> option R.
Variable int_of_str : string -> option Z.

Local Abbreviation get_atms' := (get_atms float_of_str int_of_str).
Local Abbreviation parsed' := (parsed float_of_str int_of_str).
Local Abbreviation float_arg' := (float_arg float_of_str).
Local Abbreviation int_arg' := (int_arg int_of_str).
Local Abbreviation full_batch' := (full_batch float_of_str int_of_str).
Local Abbreviation reachable' := (reachable float_of_str int_of_str).

Lemma parsed_functional args lat lng radius lat' lng' radius' :
  parsed' args lat lng radius -> parsed' args lat' lng' radius' ->
  lat = lat' /\ lng = lng' /\ radius = radius'.
Proof.
  intros (H1 & H2 & H3) (K1 & K2 & K3).
  rewrite H1 in K1; rewrite H2 in K2; rewrite H3 in K3.
  injection K1; injection K2; injection K3; auto.
Qed.

(** A refresh that nothing disturbs. *)
Lemma refresh_succeeds args lat lng radius w :
  parsed' args lat lng radius ->
  cos (radians lat) <> 0%R ->
  fresh_rows w = [] ->
  (forall i, (i < 5)%nat -> faults w (dpos w + i) = false) ->
  exists atm_data w3,
    generate_mock_atms lat lng radius (num_atms w) (gen_world w)
    = (Ok atm_data, w3)
    /\ Z.of_nat (List.length atm_data) = num_atms w
    /\ get_atms' args w
       = (Resp 200 (Atms (map to_dict
                              (new_rows atm_data (wallclock w)
                                        (S (cpos w))))),
          left_behind w (new_rows atm_data (wallclock w) (S (cpos w)))
                      (rpos w3) (S (cpos w) + List.length atm_data)
                      (5 + dpos w)).
Proof.
  intros Hp Hnz Hfresh Hf.
  destruct (generate_mock_atms_spec lat lng radius (num_atms w)
              (gen_world w) Hnz) as (atm_data & w3 & Hgen & Hlen & _ & _).
  pose proof (num_atms_range w) as Hn.
  assert (Hne : atm_data <> []).
  { intros ->. cbn [List.length] in Hlen. lia. }
  exists atm_data, w3. split; [exact Hgen|]. split; [lia|].
  pose proof (Hf 0%nat ltac:(lia)) as H0. rewrite Nat.add_0_r in H0.
  rewrite (get_atms_miss _ _ _ _ _ _ _ _ _ Hp H0 Hfresh Hgen Hne).
  cbv zeta.
  rewrite (Nat.add_comm 1), (Hf 1%nat) by lia.
  rewrite (Nat.add_comm 2), (Hf 2%nat) by lia.
  rewrite (Nat.add_comm 3), (Hf 3%nat) by lia.
  rewrite (Nat.add_comm 4), (Hf 4%nat) by lia.
  reflexivity.
Qed.


(** C2.  Between requests the table is empty or holds the output of
    exactly one call of [generate_mock_atms]; and when a request that
    missed the cache answers 200, the table holds exactly the records
    generated in that request (stamped with that request's clock
    readings), which are also what the response carries. *)
Theorem store_holds_one_generation (w : World) :
  reachable' w ->
  (table w = [] \/ one_generation (table w))
  /\ forall args lat lng radius resp w',
      parsed' args lat lng radius ->
      fresh_rows w = [] ->
      get_atms' args w = (resp, w') ->
      status resp = 200 ->
      exists atm_data w3,
        generate_mock_atms lat lng radius (num_atms w) (gen_world w)
        = (Ok atm_data, w3)
        /\ table w' = new_rows atm_data (wallclock w) (S (cpos w))
        /\ map ATM.payload (table w') = atm_data
        /\ map ATM.fetched_at (table w')
           = map (fun i => Some (wallclock w i))
                 (seq (S (cpos w)) (List.length atm_data))
        /\ resp = Resp 200 (Atms (map to_dict (table w'))).
Proof.
  intros Hr. split; [apply (reachable_inv _ _ _ Hr)|].
  intros args lat lng radius resp w' Hp Hfresh Hrun Hst.
  destruct (get_atms_outcome float_of_str int_of_str args w)
    as (resp1 & w1 & Hrun1 & _ & _ & Hcases).
  rewrite Hrun in Hrun1. injection Hrun1 as <- <-.
  destruct Hcases as [(Hne & _)|[(_ & Hfull & Hresp)|(e & -> & _)]].
  - contradiction.
  - destruct Hfull
      as (lat1 & lng1 & radius1 & atm_data & w3 & Hp1 & Hgen & _ & Ht).
    destruct (parsed_functional _ _ _ _ _ _ _ Hp Hp1) as (-> & -> & ->).
    exists atm_data, w3. rewrite Ht at 1 2 3.
    rewrite new_rows_payload, new_rows_fetched_at. auto.
  - discriminate.
Qed.

(** C1 (amended).  On a cache hit the response carries exactly the
    stored rows whose [fetched_at] is within the last 15 minutes, in
    table order, whatever [lat], [lng] and [radius] the request gives;
    the table is left as it is; and when every stored row is that
    recent, the response is the whole table. *)
Theorem cache_hit_serves_fresh_rows
        (args1 args2 : list (string * string))
        (lat1 lng1 lat2 lng2 : R) (radius1 radius2 : Z) (w : World) :
  parsed' args1 lat1 lng1 radius1 ->
  parsed' args2 lat2 lng2 radius2 ->
  faults w (dpos w) = false ->
  fresh_rows w <> [] ->
  fst (get_atms' args1 w) = Resp 200 (Atms (map to_dict (fresh_rows w)))
  /\ get_atms' args2 w = get_atms' args1 w
  /\ table (snd (get_atms' args1 w)) = table w
  /\ (forallb (Db.is_fresh (threshold w)) (table w) = true ->
      fst (get_atms' args1 w) = Resp 200 (Atms (map to_dict (table w)))).
Proof.
  intros Hp1 Hp2 Hf Hfresh.
  rewrite (get_atms_hit _ _ _ _ _ _ _ Hp1 Hf Hfresh).
  rewrite (get_atms_hit _ _ _ _ _ _ _ Hp2 Hf Hfresh).
  cbn [fst snd left_behind table]. repeat split.
  intros Hall. unfold fresh_rows.
  rewrite forallb_filter_id by assumption. reflexivity.
Qed.

(** C5 (amended).  A request to the list route answers 200 or reports
    one error.  With 200 the table is unchanged (cache hit) or holds
    the complete new batch.  With an error the table is unchanged, or
    empty (the deletion was committed, the new batch was not), or
    holds the complete new batch (the last query raised); it never
    holds a part of a batch. *)
Theorem refresh_outcomes (args : list (string * string)) (w : World) :
  (status (fst (get_atms' args w)) = 200
   /\ (table (snd (get_atms' args w)) = table w
       \/ full_batch' args w (table (snd (get_atms' args w)))))
  \/ (exists e, fst (get_atms' args w) = failed e
                /\ (table (snd (get_atms' args w)) = table w
                    \/ table (snd (get_atms' args w)) = []
                    \/ full_batch' args w
                                   (table (snd (get_atms' args w))))).
Proof.
  destruct (get_atms_outcome float_of_str int_of_str args w)
    as (resp & w' & Hrun & _ & _ & Hcases).
  rewrite Hrun. cbn [fst snd].
  destruct Hcases
    as [(_ & Ht & ->)|[(_ & Hfull & ->)|(e & -> & Ht)]].
  - left; split; auto.
  - left; split; auto.
  - right; exists e; split; [reflexivity|]. tauto.
Qed.

(** C8 (amended).  A parameter that is missing takes its default
    ([lat = 0], [lng = 0], [radius = 1000]) and the request goes on;
    a parameter that is present and cannot be converted makes the
    request answer 500 with the [ValueError], the table untouched. *)
Theorem missing_parameters_default
        (args : list (string * string)) (w : World) :
  (forall lat lng radius,
      match args_get "lat" args with
      | None => lat = 0%R
      | Some s => float_of_str s = Some lat
      end ->
      match args_get "lng" args with
      | None => lng = 0%R
      | Some s => float_of_str s = Some lng
      end ->
      match args_get "radius" args with
      | None => radius = 1000
      | Some s => int_of_str s = Some radius
      end ->
      get_atms_try float_of_str int_of_str args w
      = cached_or_refreshed lat lng radius w)
  /\ ((exists s, args_get "lat" args = Some s /\ float_of_str s = None)
      \/ (exists s, args_get "lng" args = Some s /\ float_of_str s = None)
      \/ (exists s, args_get "radius" args = Some s
                    /\ int_of_str s = None) ->
      exists s, fst (get_atms' args w) = failed (ValueError s)
                /\ table (snd (get_atms' args w)) = table w).
Proof.
  split.
  - intros lat lng radius Hlat Hlng Hrad.
    apply get_atms_try_parsed. unfold parsed, float_arg, int_arg.
    destruct (args_get "lat" args); [rewrite Hlat|rewrite Hlat];
      (destruct (args_get "lng" args); [rewrite Hlng|rewrite Hlng]);
      (destruct (args_get "radius" args); [rewrite Hrad|rewrite Hrad]);
      auto.
  - intros Hbad.
    assert (Hraise :
              forall v d x, float_arg' v d = Raise x ->
                            exists s, x = ValueError s).
    { intros [s|] d x; unfold float_arg; [|discriminate].
      destruct (float_of_str s); [discriminate|].
      intros [= <-]; eauto. }
    assert (Hraise' :
              forall v d x, int_arg' v d = Raise x ->
                            exists s, x = ValueError s).
    { intros [s|] d x; unfold int_arg; [|discriminate].
      destruct (int_of_str s); [discriminate|].
      intros [= <-]; eauto. }
    assert (Hdone : forall e,
               (exists s, e = ValueError s) ->
               get_atms' args w
               = (failed e,
                  left_behind w (table w) (rpos w) (cpos w) (dpos w)) ->
               exists s, fst (get_atms' args w) = failed (ValueError s)
                         /\ table (snd (get_atms' args w)) = table w).
    { intros e (s & ->) ->. exists s. split; reflexivity. }
    destruct (float_arg' (args_get "lat" args) 0) as [lat|e] eqn:Hlat.
    2:{ apply (Hdone e); [eapply Hraise; eassumption|].
        apply get_atms_unparsed; left; assumption. }
    destruct (float_arg' (args_get "lng" args) 0) as [lng|e] eqn:Hlng.
    2:{ apply (Hdone e); [eapply Hraise; eassumption|].
        apply get_atms_unparsed; right; left; eauto. }
    destruct (int_arg' (args_get "radius" args) DEFAULT_RADIUS)
      as [radius|e] eqn:Hrad.
    2:{ apply (Hdone e); [eapply Hraise'; eassumption|].
        apply get_atms_unparsed; right; right; eauto. }
    exfalso. unfold float_arg, int_arg in *.
    destruct Hbad as [(s & Hs & Hn)|[(s & Hs & Hn)|(s & Hs & Hn)]];
      rewrite Hs, Hn in *; discriminate.
Qed.

(** C9 (amended).  When the lookup itself does not raise, the detail
    route answers 200 with the dictionary of the stored row that has
    the requested id, every field as stored, when there is one, and
    404 with the body [{"error": "ATM not found"}] otherwise; the
    table is left as it is. *)
Theorem get_atm_found_or_404 (k : Z) (w : World) :
  reachable' w ->
  faults w (dpos w) = false ->
  (forall a, In a (table w) -> ATM.id a = Some k ->
             fst (get_atm k w) = Resp 200 (Atm (to_dict a))
             /\ to_dict a
                = Dict.mk (Some k) (ATM.name a) (ATM.lat a) (ATM.lng a)
                          (ATM.address a) (ATM.services a)
                          (ATM.fetched_at a))
  /\ ((forall a, In a (table w) -> ATM.id a <> Some k) ->
      fst (get_atm k w) = Resp 404 (Error (Text "ATM not found")))
  /\ table (snd (get_atm k w)) = table w.
Proof.
  intros Hr Hf. rewrite get_atm_run, Hf. cbn [fst snd left_behind table].
  destruct (reachable_inv _ _ _ Hr) as (_ & _ & _ & Hnd).
  split; [|split; [|reflexivity]].
  - intros a Ha Hida. split.
    + destruct (find (Db.has_id k) (table w)) as [b|] eqn:Hfind.
      * apply find_some in Hfind. destruct Hfind as (Hb & Hid).
        unfold Db.has_id in Hid.
        destruct (ATM.id b) as [i|] eqn:Hib; [|discriminate].
        apply Z.eqb_eq in Hid. subst i.
        assert (b = a); [|subst; reflexivity].
        clear - Hnd Hb Ha Hida Hib. rewrite <- Hida in Hib.
        induction (table w) as [|c tl IH]; [contradiction|].
        cbn in Hnd. inversion Hnd as [|? ? Hnotin Hnd']; subst.
        destruct Hb as [->|Hb], Ha as [->|Ha]; auto.
        -- exfalso. apply Hnotin. rewrite Hib. apply in_map. assumption.
        -- exfalso. apply Hnotin. rewrite <- Hib. apply in_map.
           assumption.
      * exfalso. eapply find_none in Hfind; [|eassumption].
        unfold Db.has_id in Hfind. rewrite Hida, Z.eqb_refl in Hfind.
        discriminate.
    + unfold to_dict. rewrite Hida.
      destruct (ATM.fetched_at a); reflexivity.
  - intros Hnone.
    destruct (find (Db.has_id k) (table w)) as [b|] eqn:Hfind;
      [|reflexivity].
    apply find_some in Hfind. destruct Hfind as (Hb & Hid).
    unfold Db.has_id in Hid.
    destruct (ATM.id b) as [i|] eqn:Hib; [|discriminate].
    apply Z.eqb_eq in Hid. subst i. exfalso. eapply Hnone; eassumption.
Qed.

End Claims.

(** ** Concrete runs *)

Lemma parsed_defaults : parsed Decimal.float Decimal.int [] 0 0 1000.
Proof. repeat split. Qed.

(** The first request after start-up, without parameters, on a zero
    entropy tape: five records, stamped with cells 1 to 5 of the clock. *)
Lemma boot_refresh (c : nat -> Z) (f : nat -> bool) :
  (forall i, (i < 5)%nat -> f i = false) ->
  exists atm_data r3,
    List.length atm_data = 5%nat
    /\ get_atms Decimal.float Decimal.int [] (boot zeros c f)
       = (Resp 200 (Atms (map to_dict (new_rows atm_data c 1))),
          left_behind (boot zeros c f) (new_rows atm_data c 1) r3 6 5).
Proof.
  intros Hf.
  destruct (refresh_succeeds Decimal.float Decimal.int [] 0 0 1000
              (boot zeros c f) parsed_defaults)
    as (atm_data & w3 & _ & Hlen & Hrun).
  - apply cos_radians_nonzero; lra.
  - reflexivity.
  - intros i Hi. apply Hf; assumption.
  - change (num_atms (boot zeros c f)) with 5 in Hlen.
    assert (Hl : List.length atm_data = 5%nat) by lia.
    exists atm_data, (rpos w3). split; [exact Hl|].
    rewrite Hrun, Hl. reflexivity.
Qed.

(** C1, counterexample.  The first request refreshes the store with five
    records, stamped at 1 to 5 microseconds.  The second request arrives
    15 minutes after the second stamp: four of the five stored rows are
    still within the window, so it is a cache hit, and the response
    carries those four rows only, not the whole table and not what the
    first response carried. *)
Lemma cache_hit_drops_stale_rows :
  let w0 := boot zeros (jumping_clock 6 (fifteen_minutes + 2)) healthy in
  let first := get_atms Decimal.float Decimal.int [] w0 in
  let second :=
    get_atms Decimal.float Decimal.int
             [("lat", "10"); ("lng", "20"); ("radius", "5")] (snd first) in
  status (fst first) = 200
  /\ List.length (table (snd first)) = 5%nat
  /\ List.length (fresh_rows (snd first)) = 4%nat
  /\ status (fst second) = 200
  /\ fst second <> fst first
  /\ fst second <> Resp 200 (Atms (map to_dict (table (snd first)))).
Proof.
  cbv zeta.
  destruct (boot_refresh (jumping_clock 6 (fifteen_minutes + 2)) healthy)
    as (atm_data & r3 & Hlen & Hrun); [reflexivity|].
  rewrite Hrun. cbn [fst snd status].
  set (rows := new_rows atm_data (jumping_clock 6 (fifteen_minutes + 2)) 1).
  set (w1 := left_behind _ rows r3 6 5).
  assert (Hrows : List.length rows = 5%nat)
    by (unfold rows; rewrite new_rows_length; exact Hlen).
  assert (Hfresh : List.length (fresh_rows w1) = 4%nat).
  { unfold fresh_rows, threshold, w1.
    cbn [left_behind table wallclock cpos boot].
    unfold rows. rewrite new_rows_fresh_length, Hlen. reflexivity. }
  assert (Hne : fresh_rows w1 <> []).
  { intros E. rewrite E in Hfresh. discriminate. }
  assert (Hp : parsed Decimal.float Decimal.int
                      [("lat", "10"); ("lng", "20"); ("radius", "5")]
                      10 20 5) by (repeat split).
  rewrite (get_atms_hit _ _ _ _ _ _ _ Hp (eq_refl : faults w1 (dpos w1) = false) Hne).
  cbn [fst snd status].
  assert (Hdiff : forall l, List.length l = 5%nat ->
            Resp 200 (Atms (map to_dict (fresh_rows w1)))
            <> Resp 200 (Atms (map to_dict l))).
  { intros l Hl E. injection E as E.
    apply (f_equal (@List.length _)) in E.
    rewrite !length_map in E. lia. }
  repeat split; auto.
Qed.

(** C5, counterexample.  The store holds five records, all older than 15
    minutes when the second request arrives; that request deletes them
    and commits, and its second commit raises: the response is the
    error, and the table is left empty. *)
Lemma failed_refresh_empties_store :
  let w0 := boot zeros (jumping_clock 6 (fifteen_minutes + 6))
                 (faulty_at 8) in
  let first := get_atms Decimal.float Decimal.int [] w0 in
  let second := get_atms Decimal.float Decimal.int [] (snd first) in
  status (fst first) = 200
  /\ List.length (table (snd first)) = 5%nat
  /\ fst second = failed OperationalError
  /\ table (snd second) = []
  /\ table (snd second) <> table (snd first).
Proof.
  cbv zeta.
  destruct (boot_refresh (jumping_clock 6 (fifteen_minutes + 6))
                         (faulty_at 8))
    as (atm_data & r3 & Hlen & Hrun).
  { intros i Hi. unfold faulty_at. apply Nat.eqb_neq. lia. }
  rewrite Hrun. cbn [fst snd status].
  set (rows := new_rows atm_data (jumping_clock 6 (fifteen_minutes + 6)) 1).
  set (w1 := left_behind _ rows r3 6 5).
  assert (Hrows : List.length rows = 5%nat)
    by (unfold rows; rewrite new_rows_length; exact Hlen).
  assert (Hfresh : fresh_rows w1 = []).
  { apply length_zero_iff_nil. unfold fresh_rows, threshold, w1.
    cbn [left_behind table wallclock cpos boot].
    unfold rows. rewrite new_rows_fresh_length, Hlen. reflexivity. }
  destruct (generate_mock_atms_spec 0 0 1000 (num_atms w1) (gen_world w1))
    as (data2 & w3 & Hgen & Hlen2 & _).
  { apply cos_radians_nonzero; lra. }
  assert (Hne : data2 <> []).
  { intros ->. pose proof (num_atms_range w1). cbn [List.length] in Hlen2.
    lia. }
  rewrite (get_atms_miss _ _ _ _ _ _ _ _ _ parsed_defaults
             (eq_refl : faults w1 (dpos w1) = false) Hfresh Hgen Hne).
  cbn [fst snd].
  change (table w1) with rows.
  repeat split; auto.
  intros E. rewrite <- E in Hrows. discriminate.
Qed.

(** C8, counterexample.  [lat=abc] cannot be converted: the request is
    answered 500 with the [ValueError], while the same request without
    the parameter is answered 200. *)
Lemma malformed_parameter_is_rejected :
  let w0 := boot zeros zeros healthy in
  args_get "lat" [("lat", "abc")] = Some "abc"
  /\ Decimal.float "abc" = None
  /\ fst (get_atms Decimal.float Decimal.int [("lat", "abc")] w0)
     = Resp 500 (Error (StrOf (ValueError "abc")))
  /\ status (fst (get_atms Decimal.float Decimal.int [] w0)) = 200.
Proof.
  cbv zeta. split; [reflexivity|]. split; [reflexivity|]. split.
  - rewrite (get_atms_unparsed Decimal.float Decimal.int
               [("lat", "abc")] (ValueError "abc")); [reflexivity|].
    left; reflexivity.
  - destruct (boot_refresh zeros healthy) as (atm_data & r3 & _ & Hrun);
      [reflexivity|].
    rewrite Hrun; reflexivity.
Qed.

(** C9, counterexample.  On the empty table the detail route answers
    404 with the message ["ATM not found"], which is not ["not found"]. *)
Lemma not_found_body_text :
  fst (get_atm 1 (boot zeros zeros healthy))
  = Resp 404 (Error (Text "ATM not found"))
  /\ fst (get_atm 1 (boot zeros zeros healthy))
     <> Resp 404 (Error (Text "not found")).
Proof.
  rewrite get_atm_run. cbn. split; [reflexivity|discriminate].
Qed.


(** ** Witnesses of the statements with hypotheses *)


Lemma store_holds_one_generation_witness :
  let w1 := snd (get_atms Decimal.float Decimal.int []
                          (boot zeros zeros healthy)) in
  table w1 = [] \/ one_generation (table w1).
Proof.
  cbv zeta.
  apply (proj1 (store_holds_one_generation Decimal.float Decimal.int _
                  (reach_get_atms Decimal.float Decimal.int _ []
                     (reach_init Decimal.float Decimal.int
                                 zeros zeros healthy)))).
Defined.

Lemma cache_hit_serves_fresh_rows_witness :
  fst (get_atms Decimal.float Decimal.int [("lat", "10")] warm_world)
  = Resp 200 (Atms (map to_dict (table warm_world)))
  /\ get_atms Decimal.float Decimal.int [("radius", "7")] warm_world
     = get_atms Decimal.float Decimal.int [("lat", "10")] warm_world.
Proof.
  destruct (cache_hit_serves_fresh_rows Decimal.float Decimal.int
              [("lat", "10")] [("radius", "7")] 10 0 0 0 1000 7 warm_world)
    as (_ & Hsame & _ & Hall).
  - repeat split.
  - repeat split.
  - reflexivity.
  - unfold fresh_rows, threshold. cbn. discriminate.
  - split; [apply Hall; reflexivity|exact Hsame].
Defined.


Lemma missing_parameters_default_witness :
  get_atms_try Decimal.float Decimal.int [("lng", "2.5")]
               (boot zeros zeros healthy)
  = cached_or_refreshed 0 (2 + 5 / 10) 1000 (boot zeros zeros healthy)
  /\ exists s,
      fst (get_atms Decimal.float Decimal.int [("radius", "1e3")]
                    (boot zeros zeros healthy))
      = failed (ValueError s)
      /\ table (snd (get_atms Decimal.float Decimal.int [("radius", "1e3")]
                              (boot zeros zeros healthy))) = [].
Proof.
  split.
  - apply (proj1 (missing_parameters_default Decimal.float Decimal.int
                    [("lng", "2.5")] (boot zeros zeros healthy)));
      reflexivity.
  - apply (proj2 (missing_parameters_default Decimal.float Decimal.int
                    [("radius", "1e3")] (boot zeros zeros healthy))).
    right; right. exists "1e3". split; reflexivity.
Defined.

Lemma get_atm_found_or_404_witness :
  let w1 := snd (get_atms Decimal.float Decimal.int []
                          (boot zeros zeros healthy)) in
  (exists a, In a (table w1) /\ ATM.id a = Some 1
             /\ fst (get_atm 1 w1) = Resp 200 (Atm (to_dict a)))
  /\ fst (get_atm 6 w1) = Resp 404 (Error (Text "ATM not found")).
Proof.
  cbv zeta.
  set (w1 := snd (get_atms Decimal.float Decimal.int []
                           (boot zeros zeros healthy))).
  assert (Hr : reachable Decimal.float Decimal.int w1)
    by (apply reach_get_atms, reach_init).
  destruct (boot_refresh zeros healthy) as (atm_data & r3 & Hlen & Hrun);
    [reflexivity|].
  assert (Hw1 : w1 = left_behind (boot zeros zeros healthy)
                                 (new_rows atm_data zeros 1) r3 6 5)
    by (unfold w1; rewrite Hrun; reflexivity).
  assert (Hf : faults w1 (dpos w1) = false) by (rewrite Hw1; reflexivity).
  destruct (get_atm_found_or_404 Decimal.float Decimal.int 1 w1 Hr Hf)
    as (Hfound & _ & _).
  destruct (get_atm_found_or_404 Decimal.float Decimal.int 6 w1 Hr Hf)
    as (_ & Habsent & _).
  split.
  - destruct atm_data as [|d tl]; [discriminate|].
    assert (Hin : In (ATM.with_id 1
                        (ATM.mk None (Mock.name d) (Mock.lat d) (Mock.lng d)
                                (Mock.address d) (Mock.services d)
                                (Some (zeros 1%nat))))
                     (table w1)).
    { rewrite Hw1. cbn [table left_behind]. rewrite new_rows_keyed.
      left; reflexivity. }
    eexists. split; [exact Hin|]. split; [reflexivity|].
    exact (proj1 (Hfound _ Hin eq_refl)).
  - apply Habsent. intros a Ha Hid.
    apply (in_map ATM.id) in Ha.
    rewrite Hw1 in Ha. cbn [table left_behind] in Ha.
    rewrite new_rows_ids, Hlen, Hid in Ha. cbn in Ha.
    repeat (destruct Ha as [Ha|Ha]; [discriminate|]). contradiction.
Defined.

(* ================================================================== *)
(** * Further properties of the routes *)

Lemma find_by_id (k : Z) (rows : list ATM.t) (a : ATM.t) :
  NoDup (map ATM.id rows) -> In a rows -> ATM.id a = Some k ->
  find (Db.has_id k) rows = Some a.
Proof.
  intros Hnd Ha Hid.
  induction rows as [|b tl IH]; [contradiction|].
  cbn [map] in Hnd. inversion Hnd as [|? ? Hnotin Hnd']; subst.
  cbn [find]. unfold Db.has_id at 1.
  destruct Ha as [->|Ha].
  - rewrite Hid, Z.eqb_refl. reflexivity.
  - destruct (ATM.id b) as [i|] eqn:Hib; [|apply IH; assumption].
    destruct (Z.eqb_spec i k) as [->|_]; [|apply IH; assumption].
    exfalso. apply Hnotin. rewrite <- Hid. apply in_map. assumption.
Qed.

Lemma find_has_id (k : Z) (rows : list ATM.t) (a : ATM.t) :
  find (Db.has_id k) rows = Some a -> In a rows /\ ATM.id a = Some k.
Proof.
  intros H. apply find_some in H. destruct H as (Hin & Hid).
  split; [assumption|]. unfold Db.has_id in Hid.
  destruct (ATM.id a) as [i|]; [|discriminate].
  apply Z.eqb_eq in Hid. congruence.
Qed.

Lemma keys_In (n : nat) (k : Z) :
  In (Some k) (keys n) <-> 1 <= k <= Z.of_nat n.
Proof.
  unfold keys. rewrite in_map_iff. split.
  - intros (i & Hi & Hin). apply in_seq in Hin.
    assert (k = 1 + Z.of_nat i) by congruence. lia.
  - intros Hk. exists (Z.to_nat (k - 1)). split.
    + f_equal. lia.
    + apply in_seq. lia.
Qed.

Lemma keys_no_None (n : nat) : ~ In None (keys n).
Proof.
  unfold keys. rewrite in_map_iff. intros (i & Hi & _). discriminate.
Qed.

Section MoreRouteFacts.

Variable float_of_str : string -> option R.
Variable int_of_str : string -> option Z.

Local Abbreviation get_atms' := (get_atms float_of_str int_of_str).
Local Abbreviation parsed' := (parsed float_of_str int_of_str).
Local Abbreviation full_batch' := (full_batch float_of_str int_of_str).
Local Abbreviation reachable' := (reachable float_of_str int_of_str).

(** Between requests the keys are [1 .. n] and no timestamp is NULL. *)
Lemma reachable_rows w :
  reachable' w ->
  map ATM.id (table w) = keys (List.length (table w))
  /\ Forall (fun a => ATM.fetched_at a <> None) (table w).
Proof.
  intros Hr.
  destruct (reachable_inv _ _ _ Hr) as (_ & _ & [->|Hgen] & _).
  - split; [reflexivity|constructor].
  - destruct Hgen
      as (lat & lng & radius & count & w0 & atm_data & w1 & clock & c
          & _ & ->).
    split.
    + rewrite new_rows_ids, new_rows_length. reflexivity.
    + apply Forall_forall. intros a Ha.
      apply (in_map ATM.fetched_at) in Ha.
      rewrite new_rows_fetched_at in Ha.
      apply in_map_iff in Ha. destruct Ha as (i & Hi & _).
      rewrite <- Hi. discriminate.
Qed.

(** The rows behind a 200 response of the list route. *)
Lemma listed_rows args w l w' :
  get_atms' args w = (Resp 200 (Atms l), w') ->
  exists rows,
    l = map to_dict rows /\ rows <> []
    /\ (forall a, In a rows -> In a (table w')).
Proof.
  intros Hrun.
  destruct (get_atms_outcome float_of_str int_of_str args w)
    as (resp & w1 & Hrun1 & _ & _ & Hcases).
  rewrite Hrun in Hrun1. injection Hrun1 as <- <-.
  destruct Hcases as [(Hne & Ht & Hresp)|[(_ & Hfull & Hresp)|(e & He & _)]].
  - injection Hresp as ->. exists (fresh_rows w). repeat split; auto.
    intros a Ha. rewrite Ht. unfold fresh_rows in Ha.
    apply filter_In in Ha. tauto.
  - injection Hresp as ->. exists (table w'). repeat split; auto.
    destruct Hfull as (? & ? & ? & atm_data & ? & _ & _ & Hlen & ->).
    intros E. apply (f_equal (@List.length _)) in E.
    rewrite new_rows_length in E. cbn [List.length] in E. lia.
  - discriminate.
Qed.

(** X1.  A 200 response of the list route always carries at least one
    record: on a hit the fresh rows were found non-empty, on a miss at
    least five records were just stored. *)
Theorem ok_list_is_never_empty
        (args : list (string * string)) (w : World) (l : list Dict.t) :
  fst (get_atms' args w) = Resp 200 (Atms l) -> l <> [].
Proof.
  intros H.
  destruct (get_atms' args w) as (resp, w') eqn:Hrun. cbn [fst] in H.
  subst resp.
  destruct (listed_rows _ _ _ _ Hrun) as (rows & -> & Hne & _).
  destruct rows; [congruence|discriminate].
Qed.

(** X2.  Every record of a 200 response of the list route can be
    fetched back: the detail route, asked right afterwards for the id
    of that record (and the lookup not raising), answers 200 with the
    very same dictionary. *)
Theorem listed_record_can_be_fetched
        (args : list (string * string)) (w w' : World) (l : list Dict.t)
        (d : Dict.t) :
  reachable' w ->
  get_atms' args w = (Resp 200 (Atms l), w') ->
  faults w' (dpos w') = false ->
  In d l ->
  exists k, Dict.id d = Some k
            /\ fst (get_atm k w') = Resp 200 (Atm d).
Proof.
  intros Hr Hrun Hf Hd.
  destruct (listed_rows _ _ _ _ Hrun) as (rows & -> & _ & Hsub).
  apply in_map_iff in Hd. destruct Hd as (a & <- & Ha).
  apply Hsub in Ha.
  assert (Hr' : reachable' w').
  { replace w' with (snd (get_atms' args w)) by (rewrite Hrun; reflexivity).
    apply reach_get_atms; assumption. }
  destruct (reachable_inv _ _ _ Hr') as (_ & _ & _ & Hnd).
  destruct (reachable_rows _ Hr') as (Hids & _).
  destruct (ATM.id a) as [k|] eqn:Hk.
  - exists k. split; [cbn; assumption|].
    rewrite get_atm_run, Hf. cbn [fst].
    rewrite (find_by_id k _ a Hnd Ha Hk). reflexivity.
  - exfalso. apply (keys_no_None (List.length (table w'))).
    rewrite <- Hids, <- Hk. apply in_map. assumption.
Qed.

(** X3.  Between requests the stored records carry the ids 1, 2, ...,
    n in table order (the keys start again at 1 after every refresh,
    since the table was emptied first); so the detail route, when the
    lookup does not raise, answers 200 exactly for the ids from 1 to the
    number of stored records and 404 for every other id. *)
Theorem ids_are_one_to_n (w : World) (k : Z) :
  reachable' w ->
  faults w (dpos w) = false ->
  map ATM.id (table w) = keys (List.length (table w))
  /\ status (fst (get_atm k w))
     = (if (1 <=? k) && (k <=? Z.of_nat (List.length (table w)))
        then 200 else 404).
Proof.
  intros Hr Hf.
  destruct (reachable_rows _ Hr) as (Hids & _).
  split; [assumption|].
  rewrite get_atm_run, Hf. cbn [fst].
  destruct (find (Db.has_id k) (table w)) as [a|] eqn:Hfind.
  - apply find_has_id in Hfind. destruct Hfind as (Ha & Hid).
    assert (Hin : In (Some k) (keys (List.length (table w)))).
    { rewrite <- Hids, <- Hid. apply in_map. assumption. }
    apply keys_In in Hin.
    destruct (Z.leb_spec 1 k); [|lia].
    destruct (Z.leb_spec k (Z.of_nat (List.length (table w)))); [|lia].
    reflexivity.
  - destruct (Z.leb_spec 1 k); [|reflexivity].
    destruct (Z.leb_spec k (Z.of_nat (List.length (table w))));
      [|reflexivity].
    exfalso.
    assert (Hin : In (Some k) (map ATM.id (table w))).
    { rewrite Hids. apply keys_In. lia. }
    apply in_map_iff in Hin. destruct Hin as (a & Hid & Ha).
    apply (find_none _ _ Hfind) in Ha. unfold Db.has_id in Ha.
    rewrite Hid, Z.eqb_refl in Ha. discriminate.
Qed.

(** X4.  No record that a route serves has a null id or a null
    timestamp: on every stored row both are set, so the [else None] of
    [to_dict] is never what a client sees. *)
Theorem served_records_are_complete
        (args : list (string * string)) (k : Z) (w : World) :
  reachable' w ->
  (forall l, fst (get_atms' args w) = Resp 200 (Atms l) ->
             Forall (fun d => Dict.id d <> None
                              /\ Dict.fetched_at d <> None) l)
  /\ (forall d, fst (get_atm k w) = Resp 200 (Atm d) ->
                Dict.id d = Some k /\ Dict.fetched_at d <> None).
Proof.
  intros Hr.
  assert (Hrow : forall w1 a, reachable' w1 -> In a (table w1) ->
                   ATM.id a <> None /\ ATM.fetched_at a <> None).
  { intros w1 a Hr1 Ha. destruct (reachable_rows _ Hr1) as (Hids & Hst).
    split; [|exact (proj1 (Forall_forall _ _) Hst a Ha)].
    intros E. apply (keys_no_None (List.length (table w1))).
    rewrite <- Hids, <- E. apply in_map. assumption. }
  assert (Hdict : forall a, ATM.fetched_at a <> None ->
                    Dict.fetched_at (to_dict a) <> None).
  { intros a Ha. cbn. destruct (ATM.fetched_at a); congruence. }
  split.
  - intros l Hl.
    destruct (get_atms' args w) as (resp, w') eqn:Hrun. cbn [fst] in Hl.
    subst resp.
    destruct (listed_rows _ _ _ _ Hrun) as (rows & -> & _ & Hsub).
    assert (Hr' : reachable' w').
    { replace w' with (snd (get_atms' args w))
        by (rewrite Hrun; reflexivity).
      apply reach_get_atms; assumption. }
    apply Forall_forall. intros d Hd.
    apply in_map_iff in Hd. destruct Hd as (a & <- & Ha).
    destruct (Hrow w' a Hr' (Hsub a Ha)) as (Hid & Hst).
    split; [exact Hid|apply Hdict; exact Hst].
  - intros d Hd. rewrite get_atm_run in Hd. cbn [fst] in Hd.
    destruct (faults w (dpos w)); [discriminate|].
    destruct (find (Db.has_id k) (table w)) as [a|] eqn:Hfind;
      [|discriminate].
    injection Hd as <-.
    apply find_has_id in Hfind. destruct Hfind as (Ha & Hid).
    split; [exact Hid|].
    apply Hdict. exact (proj2 (Hrow w a Hr Ha)).
Qed.

End MoreRouteFacts.

(** ** Two requests in a row *)




Section TwoRequests.

Variable float_of_str : string -> option R.
Variable int_of_str : string -> option Z.

Local Abbreviation get_atms' := (get_atms float_of_str int_of_str).
Local Abbreviation parsed' := (parsed float_of_str int_of_str).



End TwoRequests.

(** ** Detail requests between list requests *)

Lemma blind_ret {A} (a : A) : dpos_blind (ret a).
Proof. intros w v H. split; [reflexivity|exact H]. Qed.

Lemma blind_raise {A} (e : exn) : dpos_blind (@raise A e).
Proof. intros w v H. split; [reflexivity|exact H]. Qed.

Lemma blind_lift {A} (r : result A) : dpos_blind (lift r).
Proof. intros w v H. split; [reflexivity|exact H]. Qed.

Lemma blind_bind {A B} (c : M A) (k : A -> M B) :
  dpos_blind c -> (forall a, dpos_blind (k a)) -> dpos_blind (bind c k).
Proof.
  intros Hc Hk w v H. unfold bind.
  destruct (Hc w v H) as (Hr & Hw).
  destruct (c w) as ([a|e], w1), (c v) as ([a'|e'], v1);
    cbn [fst snd] in *; try discriminate.
  - injection Hr as <-. exact (Hk a w1 v1 Hw).
  - injection Hr as <-. split; [reflexivity|assumption].
Qed.

(** A step that reads and writes no [dpos] and no fault. *)
Lemma blind_step {A} (f : World -> A) (g : World -> World) :
  (forall d w, f (set_dpos d w) = f w) ->
  (forall d w, g (set_dpos d w) = set_dpos d (g w)) ->
  (forall w, faults (g w) = faults w) ->
  (forall w, dpos (g w) = dpos w) ->
  dpos_blind (fun w => (Ok (f w), g w)).
Proof.
  intros Hf Hg Hfa Hd w v (Hh & Hv). cbn [fst snd]. rewrite Hv.
  rewrite Hf, Hg. split; [reflexivity|]. split.
  - intros i. rewrite Hfa. apply Hh.
  - destruct (g w); reflexivity.
Qed.

Lemma blind_draw : dpos_blind Random.draw.
Proof.
  apply (blind_step (fun w => entropy w (rpos w))
                    (fun w => set_rpos (S (rpos w)) w)); reflexivity.
Qed.

Lemma blind_utcnow : dpos_blind utcnow.
Proof.
  apply (blind_step (fun w => wallclock w (cpos w))
                    (fun w => set_cpos (S (cpos w)) w)); reflexivity.
Qed.

Lemma blind_statement : dpos_blind Db.statement.
Proof.
  intros w v (Hh & Hv). unfold Db.statement. cbn [fst snd].
  rewrite Hv. cbn [faults dpos set_dpos]. rewrite !Hh.
  split; [reflexivity|]. split; [exact Hh|reflexivity].
Qed.

Create HintDb blind.
#[local] Hint Resolve blind_ret blind_raise blind_lift blind_draw
  blind_utcnow blind_statement : blind.

Ltac blind :=
  repeat first
         [ apply blind_bind; [|intros ?]
         | solve [auto with blind]
         | match goal with
           | |- dpos_blind (if ?b then _ else _) => destruct b
           | |- dpos_blind (match ?x with _ => _ end) => destruct x
           end ].

Lemma blind_randbelow n : dpos_blind (Random.randbelow n).
Proof. unfold Random.randbelow. blind. Qed.

Lemma blind_random : dpos_blind Random.random.
Proof. unfold Random.random. blind. Qed.

#[local] Hint Resolve blind_randbelow blind_random : blind.

Lemma blind_randint a b : dpos_blind (Random.randint a b).
Proof. unfold Random.randint. blind. Qed.

Lemma blind_choice {A} (seq : list A) : dpos_blind (Random.choice seq).
Proof. unfold Random.choice. blind. Qed.

Lemma blind_sample_loop {A} (k : nat) :
  forall (pool : list A) m, dpos_blind (Random.sample_loop k pool m).
Proof.
  induction k as [|k IH]; intros pool m; cbn [Random.sample_loop].
  - blind.
  - apply blind_bind; [auto with blind|]. intros j.
    destruct (nth_error pool (Z.to_nat j)); [|blind].
    destruct (nth_error pool (m - 1)); [|blind].
    apply blind_bind; [apply IH|]. intros rest. blind.
Qed.

Lemma blind_sample {A} (population : list A) k :
  dpos_blind (Random.sample population k).
Proof.
  unfold Random.sample.
  destruct ((0 <=? k) && (k <=? Z.of_nat (List.length population)));
    [apply blind_sample_loop|blind].
Qed.

#[local] Hint Resolve blind_randint blind_choice blind_sample : blind.

Lemma blind_fdiv x y : dpos_blind (fdiv x y).
Proof. unfold fdiv. blind. Qed.

#[local] Hint Resolve blind_fdiv : blind.

Lemma blind_generate_one lat lng radius_lat radius_lng :
  dpos_blind (generate_one lat lng radius_lat radius_lng).
Proof. unfold generate_one. blind. Qed.

Lemma blind_generate_loop lat lng radius_lat radius_lng (n : nat) :
  dpos_blind (generate_loop n lat lng radius_lat radius_lng).
Proof.
  induction n as [|n IH]; cbn [generate_loop]; [blind|].
  apply blind_bind; [apply blind_generate_one|]. intros atm.
  apply blind_bind; [exact IH|]. intros atms. blind.
Qed.

Lemma blind_generate_mock_atms lat lng radius count :
  dpos_blind (generate_mock_atms lat lng radius count).
Proof.
  unfold generate_mock_atms.
  apply blind_bind; [blind|]. intros radius_lat.
  apply blind_bind; [blind|]. intros radius_lng.
  apply blind_generate_loop.
Qed.

Lemma blind_query_fresh thr : dpos_blind (Db.query_fresh thr).
Proof.
  unfold Db.query_fresh. apply blind_bind; [blind|]. intros _.
  apply (blind_step (fun w => filter (Db.is_fresh thr) (sess w))
                    (fun w => w)); reflexivity.
Qed.

Lemma blind_query_all : dpos_blind Db.query_all.
Proof.
  unfold Db.query_all. apply blind_bind; [blind|]. intros _.
  apply (blind_step (fun w => sess w) (fun w => w)); reflexivity.
Qed.

Lemma blind_query_get k : dpos_blind (Db.query_get k).
Proof.
  unfold Db.query_get. apply blind_bind; [blind|]. intros _.
  apply (blind_step (fun w => find (Db.has_id k) (sess w))
                    (fun w => w)); reflexivity.
Qed.

Lemma blind_query_delete : dpos_blind Db.query_delete.
Proof.
  unfold Db.query_delete. apply blind_bind; [blind|]. intros _.
  apply (blind_step (fun _ => tt) (fun w => set_sess [] w)); reflexivity.
Qed.

Lemma blind_add a : dpos_blind (Db.add a).
Proof.
  apply (blind_step (fun _ => tt)
                    (fun w => set_pend (pend w ++ [a])%list w));
    reflexivity.
Qed.

Lemma blind_commit : dpos_blind Db.commit.
Proof.
  unfold Db.commit. apply blind_bind; [blind|]. intros _.
  apply (blind_step
           (fun _ => tt)
           (fun w => set_table (Db.flush (sess w) (pend w))
                       (set_sess (Db.flush (sess w) (pend w))
                                 (set_pend [] w)))); reflexivity.
Qed.

#[local] Hint Resolve blind_generate_mock_atms blind_query_fresh
  blind_query_all blind_query_get blind_query_delete blind_add
  blind_commit : blind.

Lemma blind_add_all atm_data : dpos_blind (add_all atm_data).
Proof.
  induction atm_data as [|a tl IH]; cbn [add_all]; [blind|].
  apply blind_bind; [blind|]. intros t.
  apply blind_bind; [blind|]. intros _. exact IH.
Qed.

#[local] Hint Resolve blind_add_all : blind.

Lemma blind_refresh lat lng radius : dpos_blind (refresh lat lng radius).
Proof.
  unfold refresh.
  apply blind_bind; [apply blind_randint|]. intros n.
  apply blind_bind; [apply blind_generate_mock_atms|]. intros atm_data.
  apply blind_bind; [|intros _; apply blind_query_all].
  destruct atm_data as [|a tl]; [apply blind_ret|].
  apply blind_bind; [apply blind_query_delete|]. intros _.
  apply blind_bind; [apply blind_commit|]. intros _.
  apply blind_bind; [apply blind_add_all|]. intros _.
  apply blind_commit.
Qed.

#[local] Hint Resolve blind_refresh : blind.

Lemma blind_cached_or_refreshed lat lng radius :
  dpos_blind (cached_or_refreshed lat lng radius).
Proof.
  unfold cached_or_refreshed.
  apply blind_bind; [apply blind_utcnow|]. intros now.
  apply blind_bind; [apply blind_query_fresh|]. intros fresh_atms.
  apply blind_bind; [|intros atms; apply blind_ret].
  destruct fresh_atms; [apply blind_refresh|apply blind_ret].
Qed.

Section DetailBetweenLists.

Variable float_of_str : string -> option R.
Variable int_of_str : string -> option Z.

Lemma blind_get_atms_try args :
  dpos_blind (get_atms_try float_of_str int_of_str args).
Proof.
  unfold get_atms_try.
  apply blind_bind; [apply blind_lift|]. intros lat.
  apply blind_bind; [apply blind_lift|]. intros lng.
  apply blind_bind; [apply blind_lift|]. intros radius.
  apply blind_cached_or_refreshed.
Qed.

(** X7.  On a database that never raises, a detail request changes
    nothing that a list request can see: the list request that follows
    it answers what it would have answered without it, and leaves the
    same table. *)
Theorem detail_request_does_not_disturb_listing
        (k : Z) (args : list (string * string)) (w : World) :
  (forall i, faults w i = false) ->
  fst (get_atms float_of_str int_of_str args (snd (get_atm k w)))
  = fst (get_atms float_of_str int_of_str args w)
  /\ table (snd (get_atms float_of_str int_of_str args (snd (get_atm k w))))
     = table (snd (get_atms float_of_str int_of_str args w)).
Proof.
  intros Hh. rewrite get_atm_run. cbn [snd].
  unfold get_atms.
  assert (Hsame : same_but_dpos
                    (Db.open_session w)
                    (Db.open_session
                       (left_behind w (table w) (rpos w) (cpos w)
                                    (S (dpos w))))).
  { split; [destruct w; exact Hh|]. destruct w; reflexivity. }
  destruct (blind_get_atms_try args _ _ Hsame) as (Hr & _ & Hw).
  destruct (get_atms_try float_of_str int_of_str args (Db.open_session w))
    as (r1, w1).
  destruct (get_atms_try float_of_str int_of_str args
              (Db.open_session
                 (left_behind w (table w) (rpos w) (cpos w) (S (dpos w)))))
    as (r2, w2).
  cbn [fst snd] in Hr, Hw. subst r2. rewrite Hw.
  destruct r1; split; reflexivity.
Qed.

End DetailBetweenLists.

(** ** [JSONField] *)

(** X8.  What [process_bind_param] writes, [process_result_value] reads
    back unchanged, [None] included, as long as [json.loads] undoes
    [json.dumps]; and the column holds NULL exactly when the value was
    [None]. *)
Theorem json_field_round_trip
        (value : Type) (dumps : value -> string) (loads : string -> value)
        (v : option value) :
  (forall x, loads (dumps x) = x) ->
  process_result_value value loads (process_bind_param value dumps v) = v
  /\ (process_bind_param value dumps v = None <-> v = None).
Proof.
  intros Hrt. destruct v as [x|]; cbn.
  - rewrite Hrt. split; [reflexivity|]. split; discriminate.
  - split; [reflexivity|]. split; reflexivity.
Qed.

Lemma json_field_round_trip_witness :
  process_result_value bool loads_bool
    (process_bind_param bool dumps_bool (Some true)) = Some true
  /\ process_result_value bool loads_bool
       (process_bind_param bool dumps_bool None) = None.
Proof.
  assert (Hrt : forall b, loads_bool (dumps_bool b) = b)
    by (intros [|]; reflexivity).
  split.
  - exact (proj1 (json_field_round_trip bool dumps_bool loads_bool
                    (Some true) Hrt)).
  - exact (proj1 (json_field_round_trip bool dumps_bool loads_bool
                    None Hrt)).
Defined.

(** ** The page script *)

Lemma generate_ok_records lat lng radius count w l w' :
  generate_mock_atms lat lng radius count w = (Ok l, w') ->
  Forall (generated_record (entropy w) lat lng (lat_span radius)
                           (lng_span lat radius)) l.
Proof.
  intros Hgen.
  destruct (Req_dec_T (cos (radians lat)) 0) as [Hz|Hnz].
  - rewrite generate_mock_atms_zero in Hgen by assumption. discriminate.
  - destruct (generate_mock_atms_spec lat lng radius count w Hnz)
      as (l1 & w1 & Hrun & _ & Hall & _).
    rewrite Hrun in Hgen. injection Hgen as <- _. exact Hall.
Qed.

(** The icon of each entry of the service list of the server. *)
Lemma vocabulary_icons (service : string) :
  In service all_services ->
  Page.service_icon service <> Page.IconCardless
  /\ (Page.service_icon service = Page.IconWithdraw
      <-> (service = "Cash Withdrawal" \/ service = "Cardless Withdrawal")).
Proof.
  unfold all_services. cbn [In].
  intros [<-|[<-|[<-|[<-|[<-|[<-|[]]]]]]];
    (split; [vm_compute; discriminate|]);
    (split; [vm_compute; intros H; try discriminate; auto
            |intros [H|H]; try discriminate H; reflexivity]).
Qed.

Lemma set_markers_twice layer1 ms1 layer2 ms2 s :
  Page.set_markers layer2 ms2 (Page.set_markers layer1 ms1 s)
  = Page.set_markers layer2 ms2 s.
Proof. reflexivity. Qed.

Lemma add_markers_done (atms : list Dict.t) :
  forall s layer,
    Page.markerLayer s = Some layer ->
    Page.add_markers atms s
    = Page.Done
        (Page.set_markers
           (Some (layer ++ map Page.marker_of atms)%list)
           (Page.atmMarkers s ++ map Page.marker_of atms)%list s).
Proof.
  induction atms as [|atm tl IH]; intros s layer Hl; cbn [Page.add_markers map].
  - rewrite !app_nil_r. destruct s; cbn in *. subst. reflexivity.
  - rewrite Hl.
    rewrite (IH (Page.set_markers
                   (Some (layer ++ [Page.marker_of atm])%list)
                   (Page.atmMarkers s ++ [Page.marker_of atm])%list s)
                (layer ++ [Page.marker_of atm])%list eq_refl).
    rewrite set_markers_twice. cbn [Page.set_markers Page.atmMarkers].
    rewrite <- !app_assoc. reflexivity.
Qed.

Lemma displayATMs_done (atms : list Dict.t) s layer :
  Page.markerLayer s = Some layer ->
  Page.displayATMs atms s
  = Page.Done (Page.set_markers (Some (map Page.marker_of atms))
                                (map Page.marker_of atms) s).
Proof.
  intros Hl. unfold Page.displayATMs.
  rewrite (add_markers_done atms (Page.clearATMMarkers s) []).
  - reflexivity.
  - unfold Page.clearATMMarkers. rewrite Hl. reflexivity.
Qed.

Section PageAndRoutes.

Variable float_of_str : string -> option R.
Variable int_of_str : string -> option Z.

Local Abbreviation get_atms' := (get_atms float_of_str int_of_str).
Local Abbreviation reachable' := (reachable float_of_str int_of_str).


(** Between requests every stored row has two to four services. *)
Lemma reachable_services w a :
  reachable' w -> In a (table w) ->
  (2 <= List.length (ATM.services a) <= 4)%nat
  /\ incl (ATM.services a) all_services.
Proof.
  intros Hr Ha.
  destruct (reachable_inv _ _ _ Hr) as (_ & _ & [E|Hgen] & _).
  - rewrite E in Ha. contradiction.
  - destruct Hgen
      as (lat & lng & radius & count & w0 & atm_data & w1 & clock & c
          & Hrun & Hrows).
    pose proof (generate_ok_records _ _ _ _ _ _ _ Hrun) as Hall.
    assert (Hp : In (ATM.payload a) atm_data).
    { rewrite <- (new_rows_payload atm_data clock c), <- Hrows.
      apply in_map. assumption. }
    destruct (proj1 (Forall_forall _ _) Hall _ Hp)
      as (_ & _ & _ & (Hlen & _ & Hincl)).
    cbn [ATM.payload Mock.services] in Hlen, Hincl. split; [lia|assumption].
Qed.

(** The row behind a listed record, and its lookup. *)
Lemma listed_record_lookup args w w' l d :
  reachable' w ->
  get_atms' args w = (Resp 200 (Atms l), w') ->
  faults w' (dpos w') = false ->
  In d l ->
  exists a k,
    d = to_dict a /\ In a (table w') /\ reachable' w'
    /\ ATM.id a = Some k
    /\ fst (get_atm k w') = Resp 200 (Atm d).
Proof.
  intros Hr Hrun Hf Hd.
  destruct (listed_rows _ _ _ _ _ _ Hrun) as (rows & -> & _ & Hsub).
  apply in_map_iff in Hd. destruct Hd as (a & <- & Ha).
  apply Hsub in Ha.
  assert (Hr' : reachable' w').
  { replace w' with (snd (get_atms' args w)) by (rewrite Hrun; reflexivity).
    apply reach_get_atms; assumption. }
  destruct (reachable_inv _ _ _ Hr') as (_ & _ & _ & Hnd).
  destruct (reachable_rows _ _ _ Hr') as (Hids & _).
  destruct (ATM.id a) as [k|] eqn:Hk.
  - exists a, k. repeat split; auto.
    rewrite get_atm_run, Hf. cbn [fst].
    rewrite (find_by_id k _ a Hnd Ha Hk). reflexivity.
  - exfalso. apply (keys_no_None (List.length (table w'))).
    rewrite <- Hids, <- Hk. apply in_map. assumption.
Qed.


(** X10.  A click on the marker of a listed record, with the store as
    the list request left it and the lookup not raising, opens the side
    panel on that very record: its name, its address, and one badge per
    service (two to four of them, none with the cardless emoji), the
    spinner hidden and the markers left in place. *)
Theorem marker_click_shows_the_record
        (args : list (string * string)) (w w' : World)
        (l : list Dict.t) (d : Dict.t) (s : Page.State)
        (pos : R * R) (layer : list Page.marker) :
  reachable' w ->
  get_atms' args w = (Resp 200 (Atms l), w') ->
  faults w' (dpos w') = false ->
  Page.userPosition s = Some pos ->
  Page.markerLayer s = Some layer ->
  In d l ->
  let s2 := Page.refreshATMs_settled (Page.atms_reply (Resp 200 (Atms l)))
                                     (fst (Page.refreshATMs s)) in
  In (Page.marker_of d) (Page.atmMarkers s2)
  /\ exists k,
      Page.on_click (Page.marker_of d) = Some k
      /\ let clicked := Page.fetchATMDetails (Some k) s2 in
         let s4 := Page.fetchATMDetails_settled
                     (Page.atm_reply (fst (get_atm k w'))) (fst clicked) in
         snd clicked = Some k
         /\ Page.side_panel_active s4 = true
         /\ Page.spinner_shown s4 = false
         /\ Page.atm_name s4 = Dict.name d
         /\ Page.atm_address s4 = Dict.address d
         /\ Page.services_container s4
            = map (fun service =>
                     Page.Badge (Page.service_icon service) service)
                  (Dict.services d)
         /\ (2 <= List.length (Page.services_container s4) <= 4)%nat
         /\ (forall service,
                ~ In (Page.Badge Page.IconCardless service)
                     (Page.services_container s4))
         /\ Page.atmMarkers s4 = Page.atmMarkers s2.
Proof.
  intros Hr Hrun Hf Hpos Hlayer Hd. cbv zeta.
  destruct (listed_record_lookup _ _ _ _ _ Hr Hrun Hf Hd)
    as (a & k & Hda & Ha & Hr' & Hk & Hget).
  destruct (reachable_services _ _ Hr' Ha) as (Hlen & Hincl).
  assert (Hne : l <> []) by (intros E; rewrite E in Hd; contradiction).
  destruct l as [|d0 tl]; [congruence|].
  unfold Page.refreshATMs. rewrite Hpos. destruct pos as (lat, lng).
  cbn [fst snd].
  set (s1 := Page.closeSidePanel
               (Page.clearATMMarkers (Page.showLoading true s))).
  assert (Hl1 : Page.markerLayer s1 = Some []).
  { unfold s1. cbn. rewrite Hlayer. reflexivity. }
  unfold Page.refreshATMs_settled, Page.atms_reply.
  cbn [status content Page.response_ok Z.leb Z.compare Pos.compare
       Pos.compare_cont andb].
  rewrite (displayATMs_done _ _ _ Hl1).
  split; [cbn [Page.showLoading Page.set_markers Page.atmMarkers];
          apply in_map; exact Hd|].
  exists k. split; [cbn; rewrite Hda; exact Hk|].
  rewrite Hget.
  unfold Page.fetchATMDetails_settled, Page.atm_reply, Page.fetchATMDetails.
  cbn [fst snd status content Page.response_ok Z.leb Z.compare Pos.compare
       Pos.compare_cont andb].
  assert (Hsv : Dict.services d = ATM.services a)
    by (rewrite Hda; reflexivity).
  assert (Hcont : Page.services_container
                    (Page.showLoading false
                       (Page.showATMDetails d
                          (Page.showLoading true
                             (Page.showLoading false
                                (Page.set_markers
                                   (Some (map Page.marker_of (d0 :: tl)))
                                   (map Page.marker_of (d0 :: tl)) s1)))))
                  = map (fun service =>
                           Page.Badge (Page.service_icon service) service)
                        (Dict.services d)).
  { cbn [Page.showLoading Page.showATMDetails Page.openSidePanel
         Page.set_panel Page.services_container].
    rewrite Hsv in *. destruct (ATM.services a); [cbn in Hlen; lia|].
    reflexivity. }
  split; [reflexivity|]. split; [reflexivity|]. split; [reflexivity|].
  split; [reflexivity|]. split; [reflexivity|].
  split; [exact Hcont|]. rewrite Hcont.
  split; [rewrite length_map, Hsv; exact Hlen|].
  split; [|reflexivity].
  intros service Hin. apply in_map_iff in Hin.
  destruct Hin as (sv & Hb & Hsvin). injection Hb as Hicon _.
  rewrite Hsv in Hsvin. apply Hincl in Hsvin.
  apply (proj1 (vocabulary_icons sv Hsvin)). exact Hicon.
Qed.

End PageAndRoutes.

(** X11.  No service of a generated record is shown with the cardless
    emoji: the only entry of the service list that contains "cardless"
    also contains "withdraw", and the test for "withdraw" comes last; the
    withdrawal emoji is what "Cash Withdrawal" and "Cardless Withdrawal"
    get, and they alone. *)
Theorem generated_services_never_get_cardless_icon
        (lat lng : R) (radius count : Z) (w : World)
        (l : list Mock.t) (w' : World) :
  generate_mock_atms lat lng radius count w = (Ok l, w') ->
  Forall (fun a =>
            Forall (fun service =>
                      Page.service_icon service <> Page.IconCardless
                      /\ (Page.service_icon service = Page.IconWithdraw
                          <-> (service = "Cash Withdrawal"
                               \/ service = "Cardless Withdrawal")))
                   (Mock.services a)) l.
Proof.
  intros Hgen.
  pose proof (generate_ok_records _ _ _ _ _ _ _ Hgen) as Hall.
  eapply Forall_impl; [|exact Hall].
  intros a (_ & _ & _ & (_ & _ & Hincl)).
  apply Forall_forall. intros service Hs.
  apply vocabulary_icons. apply Hincl. exact Hs.
Qed.

(** ** Witnesses of the further properties *)



Lemma ok_list_is_never_empty_witness :
  exists l,
    fst (get_atms Decimal.float Decimal.int [] (boot zeros zeros healthy))
    = Resp 200 (Atms l)
    /\ l <> [].
Proof.
  destruct (boot_refresh zeros healthy) as (atm_data & r3 & _ & Hrun);
    [reflexivity|].
  eexists. split; [rewrite Hrun; reflexivity|].
  apply (ok_list_is_never_empty Decimal.float Decimal.int []
           (boot zeros zeros healthy)).
  rewrite Hrun. reflexivity.
Defined.

Lemma listed_record_can_be_fetched_witness :
  exists d k,
    Dict.id d = Some k
    /\ fst (get_atm k (snd (get_atms Decimal.float Decimal.int []
                                     (boot zeros zeros healthy))))
       = Resp 200 (Atm d).
Proof.
  destruct (boot_refresh zeros healthy) as (atm_data & r3 & Hlen & Hrun);
    [reflexivity|].
  destruct atm_data as [|m tl]; [discriminate|].
  rewrite Hrun. cbn [snd].
  set (w1 := left_behind (boot zeros zeros healthy)
                         (new_rows (m :: tl) zeros 1) r3 6 5) in *.
  destruct (listed_record_can_be_fetched
              Decimal.float Decimal.int [] (boot zeros zeros healthy) w1
              (map to_dict (new_rows (m :: tl) zeros 1))
              (to_dict (hd (ATM.mk None "" 0 0 "" [] None)
                           (new_rows (m :: tl) zeros 1))))
    as (k & Hid & Hget).
  - apply reach_init.
  - exact Hrun.
  - reflexivity.
  - apply in_map. rewrite new_rows_keyed. left. reflexivity.
  - eexists _, k. split; [exact Hid|exact Hget].
Defined.

Lemma ids_are_one_to_n_witness :
  status (fst (get_atm 3 (snd (get_atms Decimal.float Decimal.int []
                                        (boot zeros zeros healthy))))) = 200
  /\ status (fst (get_atm 6 (snd (get_atms Decimal.float Decimal.int []
                                           (boot zeros zeros healthy)))))
     = 404.
Proof.
  set (w1 := snd (get_atms Decimal.float Decimal.int []
                           (boot zeros zeros healthy))).
  assert (Hr : reachable Decimal.float Decimal.int w1)
    by (apply reach_get_atms, reach_init).
  destruct (boot_refresh zeros healthy) as (atm_data & r3 & Hlen & Hrun);
    [reflexivity|].
  assert (Hw1 : w1 = left_behind (boot zeros zeros healthy)
                                 (new_rows atm_data zeros 1) r3 6 5)
    by (unfold w1; rewrite Hrun; reflexivity).
  assert (Hf : faults w1 (dpos w1) = false) by (rewrite Hw1; reflexivity).
  assert (Hn : List.length (table w1) = 5%nat).
  { rewrite Hw1. cbn [table left_behind]. rewrite new_rows_length.
    exact Hlen. }
  split.
  - rewrite (proj2 (ids_are_one_to_n Decimal.float Decimal.int w1 3 Hr Hf)).
    rewrite Hn. reflexivity.
  - rewrite (proj2 (ids_are_one_to_n Decimal.float Decimal.int w1 6 Hr Hf)).
    rewrite Hn. reflexivity.
Defined.

Lemma served_records_are_complete_witness :
  exists l,
    fst (get_atms Decimal.float Decimal.int [] (boot zeros zeros healthy))
    = Resp 200 (Atms l)
    /\ Forall (fun d => Dict.id d <> None /\ Dict.fetched_at d <> None) l.
Proof.
  destruct (boot_refresh zeros healthy) as (atm_data & r3 & _ & Hrun);
    [reflexivity|].
  eexists. split; [rewrite Hrun; reflexivity|].
  apply (proj1 (served_records_are_complete
                  Decimal.float Decimal.int [] 1
                  (boot zeros zeros healthy)
                  (reach_init Decimal.float Decimal.int
                              zeros zeros healthy))).
  rewrite Hrun. reflexivity.
Defined.



Lemma detail_request_does_not_disturb_listing_witness :
  fst (get_atms Decimal.float Decimal.int []
                (snd (get_atm 1 (boot zeros zeros healthy))))
  = fst (get_atms Decimal.float Decimal.int [] (boot zeros zeros healthy)).
Proof.
  exact (proj1 (detail_request_does_not_disturb_listing
                  Decimal.float Decimal.int 1 []
                  (boot zeros zeros healthy) (fun i => eq_refl))).
Defined.


Lemma marker_click_shows_the_record_witness :
  exists l d,
    fst (get_atms Decimal.float Decimal.int [] (boot zeros zeros healthy))
    = Resp 200 (Atms l)
    /\ In d l
    /\ In (Page.marker_of d)
          (Page.atmMarkers
             (Page.refreshATMs_settled
                (Page.atms_reply (Resp 200 (Atms l)))
                (fst (Page.refreshATMs page_ready)))).
Proof.
  destruct (boot_refresh zeros healthy) as (atm_data & r3 & Hlen & Hrun);
    [reflexivity|].
  destruct atm_data as [|m tl]; [discriminate|].
  set (rows := new_rows (m :: tl) zeros 1) in *.
  set (d := to_dict (hd (ATM.mk None "" 0 0 "" [] None) rows)).
  assert (Hd : In d (map to_dict rows)).
  { apply in_map. unfold rows. rewrite new_rows_keyed. left. reflexivity. }
  pose proof (marker_click_shows_the_record
                Decimal.float Decimal.int [] (boot zeros zeros healthy)
                _ (map to_dict rows) d page_ready
                (407128 / 10000, -74006 / 1000)%R []
                (reach_init Decimal.float Decimal.int zeros zeros healthy)
                Hrun eq_refl eq_refl eq_refl Hd) as H.
  cbv zeta in H.
  exists (map to_dict rows), d.
  split; [rewrite Hrun; reflexivity|]. split; [exact Hd|exact (proj1 H)].
Defined.

Lemma generated_services_never_get_cardless_icon_witness :
  exists l w',
    generate_mock_atms 0 0 1000 5 (boot zeros zeros healthy) = (Ok l, w')
    /\ Forall (fun a =>
                 Forall (fun service =>
                           Page.service_icon service <> Page.IconCardless)
                        (Mock.services a)) l.
Proof.
  destruct (generate_mock_atms_spec 0 0 1000 5 (boot zeros zeros healthy))
    as (l & w' & Hrun & _).
  { apply cos_radians_nonzero; lra. }
  exists l, w'. split; [exact Hrun|].
  pose proof (generated_services_never_get_cardless_icon
                _ _ _ _ _ _ _ Hrun) as H.
  eapply Forall_impl; [|exact H].
  intros a Ha. eapply Forall_impl; [|exact Ha].
  intros service Hs. exact (proj1 Hs).
Defined.

(** ** The centre and the draws *)





(** ** The page as a state machine *)

Lemma displayATMs_thrown (atm : Dict.t) (tl : list Dict.t) s :
  Page.markerLayer s = None ->
  Page.displayATMs (atm :: tl) s = Page.Thrown (Page.clearATMMarkers s).
Proof.
  intros Hl. unfold Page.displayATMs, Page.clearATMMarkers.
  rewrite Hl. reflexivity.
Qed.

Ltac page_fields s :=
  destruct s as [pos layer ms rad pan spin txt shown timers nm ad sv];
  cbn in *.

Ltac page_checks :=
  unfold Page.consistent; cbn; repeat split; cbn;
  auto; try discriminate; try congruence; try (intros; lia).

Lemma consistent_refreshATMs s :
  Page.consistent s -> Page.consistent (fst (Page.refreshATMs s)).
Proof.
  intros (Hl & Hm & Hr & He). unfold Page.refreshATMs.
  page_fields s. destruct pos as [(lat, lng)|]; cbn.
  - subst layer. page_checks.
  - page_checks.
Qed.

Lemma consistent_list_reply rp s :
  Page.consistent s -> Page.consistent (Page.refreshATMs_settled rp s).
Proof.
  intros (Hl & Hm & Hr & He).
  assert (Herr : forall msg,
            Page.consistent (Page.showLoading false (Page.showError msg s))).
  { intros msg. page_fields s. page_checks. }
  unfold Page.refreshATMs_settled.
  destruct rp as [|status data]; [apply Herr|].
  destruct (Page.response_ok status); [|apply Herr].
  destruct data as [[[|atm tl]|]|]; try apply Herr.
  destruct (Page.userPosition s) as [p|] eqn:Hpos.
  - rewrite (displayATMs_done _ _ _ Hl).
    page_fields s. subst pos. page_checks.
  - rewrite (displayATMs_thrown _ _ _ Hl).
    page_fields s. subst pos layer. page_checks.
Qed.

Lemma consistent_detail_reply rp s :
  Page.consistent s -> Page.consistent (Page.fetchATMDetails_settled rp s).
Proof.
  intros (Hl & Hm & Hr & He).
  unfold Page.fetchATMDetails_settled.
  page_fields s.
  destruct rp as [|status [atm|]]; [|destruct (Page.response_ok status)..];
    cbn; page_checks.
Qed.

Lemma consistent_step s s' :
  Page.consistent s -> Page.step s s' -> Page.consistent s'.
Proof.
  intros Hc Hstep. destruct Hstep as [s p Hpos|s Hpos|s|s v Hv|s rp|s m Hm
                                     |s rp|s|s Ht].
  - unfold Page.located. apply consistent_refreshATMs.
    destruct Hc as (Hl & Hm & Hr & He).
    page_fields s. rewrite (Hm Hpos). page_checks.
  - destruct Hc as (Hl & Hm & Hr & He).
    page_fields s. rewrite (Hm Hpos). page_checks.
  - apply consistent_refreshATMs; assumption.
  - apply consistent_refreshATMs.
    destruct Hc as (Hl & Hm & Hr & He). page_fields s. page_checks.
  - apply consistent_list_reply; assumption.
  - destruct Hc as (Hl & Hm' & Hr & He). page_fields s. page_checks.
  - apply consistent_detail_reply; assumption.
  - destruct Hc as (Hl & Hm & Hr & He). page_fields s. page_checks.
  - destruct Hc as (Hl & Hm & Hr & He). page_fields s. page_checks.
Qed.

Lemma radius_options_parse (v : string) :
  In v Page.radius_options ->
  exists n, Decimal.int v = Some n /\ 500 <= n <= 5000.
Proof.
  unfold Page.radius_options. cbn [In].
  intros [<-|[<-|[<-|[<-|[]]]]]; eexists;
    (split; [vm_compute; reflexivity|split; vm_compute; discriminate]).
Qed.

(** X13.  Whatever the events (the geolocation outcome, clicks, radius
    changes, replies of any content, timers) and their order, the page
    stays consistent: the layer group of the markers exists exactly when
    the position is known, and holds exactly the markers of [atmMarkers];
    the radius is one of the four options; a shown error message always
    has a timer pending that will hide it.  So [displayATMs] never
    throws once the position is known, a list request is only sent with
    a position, and the radius it carries is a decimal number between
    500 and 5000, which [int()] accepts. *)
Theorem page_stays_consistent (s : Page.State) :
  Page.reachable s ->
  Page.consistent s
  /\ (Page.userPosition s <> None ->
      forall atms,
        Page.displayATMs atms s
        = Page.Done (Page.set_markers (Some (map Page.marker_of atms))
                                      (map Page.marker_of atms) s))
  /\ (forall rq, snd (Page.refreshATMs s) = Some rq ->
                 Page.userPosition s = Some (Page.q_lat rq, Page.q_lng rq)
                 /\ exists n, Decimal.int (Page.q_radius rq) = Some n
                              /\ 500 <= n <= 5000).
Proof.
  intros Hr.
  assert (Hc : Page.consistent s).
  { induction Hr as [supported|s s' Hr IH Hstep].
    - destruct supported; cbn; page_checks.
    - eapply consistent_step; eassumption. }
  split; [exact Hc|].
  destruct Hc as (Hl & Hm & Hrad & He). split.
  - intros Hpos atms.
    destruct (Page.userPosition s) as [p|]; [|congruence].
    apply (displayATMs_done _ _ _ Hl).
  - intros rq Hrq. unfold Page.refreshATMs in Hrq.
    destruct (Page.userPosition s) as [(lat, lng)|]; [|discriminate].
    cbn in Hrq. injection Hrq as <-. cbn.
    split; [reflexivity|]. apply radius_options_parse. exact Hrad.
Qed.

Lemma page_stays_consistent_witness :
  Page.consistent (Page.refreshATMs_settled
                     (Page.Reply 500 None)
                     (fst (Page.located (10, 20)%R (Page.initApp true)))).
Proof.
  apply (proj1 (page_stays_consistent _
    (Page.reach_step _ _
       (Page.reach_step _ _ (Page.reach_start true)
          (Page.step_located (Page.initApp true) (10, 20)%R eq_refl))
       (Page.step_list_reply _ (Page.Reply 500 None))))).
Defined.
